(** * The data binder of echo (bind.go)

    A shallow embedding of [DefaultBinder.bindData] and of the converters it
    calls ([setWithProperType], [unmarshalField], [setIntField],
    [setUintField], [setBoolField], [setFloatField], [setTimeField]), with
    the parts of the Go library they rest on: [strconv.ParseUint],
    [strconv.ParseInt], [strconv.ParseBool], [strconv.FormatInt] and
    [strings.ToLower] are written out for the base 10 and ASCII paths the
    binder uses; [strconv.ParseFloat], the [time] package and the Unicode
    tables are taken as given by the [Runtime] class.

    A [reflect.Value] is modelled by a type descriptor ([type]) and a value
    ([Val]) side by side.  A function that writes through a
    [reflect.Value] returns the new value of what it was given. *)

Set Warnings "-register-all".
From Stdlib Require Import ZArith String Ascii List Lia Bool.
From stdpp Require Import list.
Import ListNotations.

Local Open Scope string_scope.
Local Open Scope Z_scope.

(** ** Errors *)

(** The [Err] field of a [*strconv.NumError]. *)
Inductive NumErr : Type :=
| ErrSyntax
| ErrRange
| ErrBitSize (bitSize : Z).

(** The error values the binder can return: the [*strconv.NumError] of the
    parsers, the values made by [errors.New], and errors made elsewhere (by
    an [UnmarshalParam] method or the [time] package). *)
Inductive error : Type :=
| NumError (Func Num : string) (Err : NumErr)
| errorString (s : string)
| foreignError (s : string).

(** ** Panics and control flow *)

(** A panic of the Go runtime: an index out of range at [inputValue[index]],
    and the panic of [reflect] when a value has no field [i], which a value
    of the type walked does not raise. *)
Inductive panic : Type :=
| IndexOutOfRange (index length : nat)
| ReflectFieldIndex (i : nat).

Inductive res (A : Type) : Type :=
| Ret (a : A)
| Panic (p : panic).
Arguments Ret {A} a.
Arguments Panic {A} p.

(** How an iteration of the loop over the fields ends: it goes on with the
    next field ([continue] or the end of the body), or [bindData] returns. *)
Inductive flow : Type :=
| Continue
| Return (err : option error).

(** ** strconv *)

Module strconv.

Definition syntaxError (fn str : string) : error := NumError fn str ErrSyntax.
Definition rangeError (fn str : string) : error := NumError fn str ErrRange.
Definition bitSizeError (fn str : string) (bitSize : Z) : error :=
  NumError fn str (ErrBitSize bitSize).

Definition maxUint64 : Z := 2 ^ 64 - 1.

(** Conversions to [uint64] and [int64]: wrap-around. *)
Definition uint64 (z : Z) : Z := z mod 2 ^ 64.
Definition int64 (z : Z) : Z := (z + 2 ^ 63) mod 2 ^ 64 - 2 ^ 63.

Definition byte_of (c : ascii) : Z := Z.of_N (N_of_ascii c).

(** [lower(c)] of strconv: [c | ('x' - 'X')]. *)
Definition lower (c : Z) : Z := Z.lor c 32.

(** The digit a byte stands for, [None] in the [default] case of the
    switch in the loop of [ParseUint] (the case of [_] needs base 0). *)
Definition digit_of (c : Z) : option Z :=
  if (48 <=? c) && (c <=? 57) then Some (c - 48)
  else if (97 <=? lower c) && (lower c <=? 122) then Some (lower c - 97 + 10)
  else None.

(** [cutoff] of [ParseUint] for base 10: the least [n] with
    [n * 10 > maxUint64]. *)
Definition cutoff10 : Z := maxUint64 / 10 + 1.

(** The loop of [ParseUint] over the bytes of [s], in base 10, from the
    accumulator [n]; returns the [Err] to report, if any. *)
Fixpoint ParseUint_loop (maxVal : Z) (s : string) (n : Z) : Z * option NumErr :=
  match s with
  | EmptyString => (n, None)
  | String c s' =>
      match digit_of (byte_of c) with
      | None => (0, Some ErrSyntax)
      | Some d =>
          if 10 <=? d then (0, Some ErrSyntax)
          else if cutoff10 <=? n then (maxVal, Some ErrRange)
          else
            let n := uint64 (n * 10) in
            let n1 := uint64 (n + d) in
            if (n1 <? n) || (maxVal <? n1) then (maxVal, Some ErrRange)
            else ParseUint_loop maxVal s' n1
      end
  end.

Section IntSize.

(** [strconv.IntSize]: the size of [int] and [uint] in bits. *)
Variable IntSize : Z.

(** [ParseUint(s, 10, bitSize)]. *)
Definition ParseUint (s : string) (bitSize : Z) : Z * option error :=
  let fnParseUint := "ParseUint" in
  if String.eqb s "" then (0, Some (syntaxError fnParseUint s))
  else if (bitSize <? 0) || (64 <? bitSize) then
    (0, Some (bitSizeError fnParseUint s bitSize))
  else
    let bitSize := if bitSize =? 0 then IntSize else bitSize in
    let maxVal := uint64 (uint64 (2 ^ bitSize) - 1) in
    match ParseUint_loop maxVal s 0 with
    | (n, None) => (n, None)
    | (n, Some e) => (n, Some (NumError fnParseUint s e))
    end.

(** [ParseInt(s, 10, bitSize)]. *)
Definition ParseInt (s : string) (bitSize : Z) : Z * option error :=
  let fnParseInt := "ParseInt" in
  if String.eqb s "" then (0, Some (syntaxError fnParseInt s))
  else
    let s0 := s in
    let '(neg, s) :=
      match s with
      | String "+"%char s' => (false, s')
      | String "-"%char s' => (true, s')
      | _ => (false, s)
      end in
    let '(un, err) := ParseUint s bitSize in
    let range_or_nil :=
      match err with
      | None => true
      | Some (NumError _ _ ErrRange) => true
      | Some _ => false
      end in
    if negb range_or_nil then
      match err with
      | Some (NumError _ _ e) => (0, Some (NumError fnParseInt s0 e))
      | _ => (0, err)
      end
    else
      let bitSize := if bitSize =? 0 then IntSize else bitSize in
      let cutoff := uint64 (2 ^ (bitSize - 1)) in
      if negb neg && (cutoff <=? un) then
        (int64 (cutoff - 1), Some (rangeError fnParseInt s0))
      else if neg && (cutoff <? un) then
        (int64 (- int64 cutoff), Some (rangeError fnParseInt s0))
      else
        let n := int64 un in
        let n := if neg then int64 (- n) else n in
        (n, None).

End IntSize.

(** [ParseBool(str)]. *)
Definition ParseBool (str : string) : bool * option error :=
  if String.eqb str "1" || String.eqb str "t" || String.eqb str "T" || String.eqb str "true"
     || String.eqb str "TRUE" || String.eqb str "True" then (true, None)
  else if String.eqb str "0" || String.eqb str "f" || String.eqb str "F" || String.eqb str "false"
     || String.eqb str "FALSE" || String.eqb str "False" then (false, None)
  else (false, Some (syntaxError "ParseBool" str)).

(** The decimal digit [d] as a byte. *)
Definition digit_char (d : Z) : ascii := ascii_of_N (Z.to_N (48 + d)).

(** [formatBits] in base 10: the digits of [u] are put before [acc], the
    last digit first.  A [uint64] has at most 20 digits, which is the
    length of the buffer of [formatBits] left for them. *)
Fixpoint formatBits (fuel : nat) (u : Z) (acc : string) : string :=
  match fuel with
  | O => String (digit_char (u mod 10)) acc
  | S fuel' =>
      if u <? 10 then String (digit_char u) acc
      else formatBits fuel' (u / 10) (String (digit_char (u mod 10)) acc)
  end.

(** [FormatUint(u, 10)] and [FormatInt(i, 10)]. *)
Definition FormatUint (u : Z) : string := formatBits 19 u "".
Definition FormatInt (i : Z) : string :=
  if i <? 0 then String "-"%char (formatBits 19 (uint64 (- i)) "")
  else formatBits 19 (uint64 i) "".

End strconv.

(** ** strings *)

Module strings.

Definition isASCII_byte (c : ascii) : bool := (N_of_ascii c <? 128)%N.
Definition isUpper_byte (c : ascii) : bool :=
  ((65 <=? N_of_ascii c) && (N_of_ascii c <=? 90))%N.

(** [c += 'a' - 'A'] for the bytes [A] to [Z]. *)
Definition lower_byte (c : ascii) : ascii :=
  if isUpper_byte c then ascii_of_N (N_of_ascii c + 32)%N else c.

Fixpoint isASCII (s : string) : bool :=
  match s with
  | EmptyString => true
  | String c s' => isASCII_byte c && isASCII s'
  end.

Fixpoint lower_bytes (s : string) : string :=
  match s with
  | EmptyString => EmptyString
  | String c s' => String (lower_byte c) (lower_bytes s')
  end.

(** [ToLower(s)]: a string of ASCII bytes is mapped byte by byte (when it
    has no upper-case byte this is [s] itself); any other string goes
    through [Map(unicode.ToLower, s)], given as [unicodeToLower]. *)
Definition ToLower (unicodeToLower : string -> string) (s : string) : string :=
  if isASCII s then lower_bytes s else unicodeToLower s.

End strings.

(** ** What the binder takes from the platform and the Go library *)

Inductive wordsize : Type := bits32 | bits64.

Class Runtime : Type := {
  (** the size of [int] and [uint] *)
  intSize : wordsize;
  (** [float64] values, [0.0], and [strconv.ParseFloat] *)
  float : Type;
  float_zero : float;
  ParseFloat : string -> Z -> float * option error;
  (** [time.Time], its zero value [time.Time{}], [*time.Location],
      [time.Local], [time.UTC], [time.LoadLocation], [time.ParseInLocation] *)
  Time : Type;
  Time_zero : Time;
  Location : Type;
  Local_ : Location;
  UTC : Location;
  LoadLocation : string -> Location * option error;
  ParseInLocation : string -> string -> Location -> Time * option error;
  (** [strings.Map(unicode.ToLower, s)] *)
  unicodeToLower : string -> string;
  (** [unicode.IsUpper] of the first rune of a name that does not start
      with an ASCII byte *)
  unicodeIsUpper : string -> bool
}.

Definition IntSize `{Runtime} : Z :=
  match intSize with bits32 => 32 | bits64 => 64 end.

Section Binder.

Context `{RT : Runtime}.

Definition ToLower : string -> string := strings.ToLower unicodeToLower.

(** ** Values and types, as [reflect] shows them *)

(** The value of a variable.  Integers are kept as [Z] within the range of
    their type; a pointer is [nil] or holds its pointee; values of the kinds
    the binder does not convert (maps, channels, interfaces, ...) are kept
    as an opaque token. *)
Inductive Val : Type :=
| VBool (b : bool)
| VInt (i : Z)
| VUint (u : Z)
| VFloat (f : float)
| VString (s : string)
| VPtr (p : option Val)
| VSlice (elems : list Val)
| VStruct (fields : list Val)
| VTime (t : Time)
| VOpaque (token : nat).

(** The [UnmarshalParam(param string) error] method of a pointer receiver:
    from the parameter and the receiver's pointee to the pointee it leaves
    and the error it returns. *)
Definition Unmarshaler : Type := string -> Val -> Val * option error.

(** The kinds of types without components: the scalar kinds and the kinds
    the binder has no conversion for. *)
Inductive Basic : Type :=
| Bool | Int | Int8 | Int16 | Int32 | Int64
| Uint | Uint8 | Uint16 | Uint32 | Uint64 | Uintptr
| Float32 | Float64 | Complex64 | Complex128
| Array | Chan | Func | Interface | Map | String_ | UnsafePointer.

(** [reflect.Kind]. *)
Inductive Kind : Type :=
| KBasic (b : Basic)
| Ptr
| Slice
| Struct.

(** A struct tag, parsed: the pairs of key and value in the order written.
    [Tag_Get] is [StructTag.Get]. *)
Definition StructTag : Type := list (string * string).

Fixpoint Tag_Get (tag : StructTag) (key : string) : string :=
  match tag with
  | [] => ""
  | (k, v) :: tag' => if String.eqb k key then v else Tag_Get tag' key
  end.

(** A type, with the [UnmarshalParam] method of its pointer type when it
    has one ([um]); a pointer type has no methods of its own, and
    [*time.Time] has no [UnmarshalParam].  [TTime] is [time.Time], a struct
    of three unexported fields. *)
Inductive type : Type :=
| TBasic (b : Basic) (um : option Unmarshaler)
| TPtr (elem : type)
| TSlice (elem : type) (um : option Unmarshaler)
| TStruct (fields : list StructField) (um : option Unmarshaler)
| TTime
with StructField : Type :=
| mkField (Name : string) (Tag : StructTag) (Type_ : type).

Definition Name (f : StructField) : string := let 'mkField n _ _ := f in n.
Definition Tag (f : StructField) : StructTag := let 'mkField _ t _ := f in t.
Definition Type_ (f : StructField) : type := let 'mkField _ _ t := f in t.

Definition Kind_of (t : type) : Kind :=
  match t with
  | TBasic b _ => KBasic b
  | TPtr _ => Ptr
  | TSlice _ _ => Slice
  | TStruct _ _ => Struct
  | TTime => Struct
  end.

Definition is_Struct (k : Kind) : bool := match k with Struct => true | _ => false end.
Definition is_Slice (k : Kind) : bool := match k with Slice => true | _ => false end.

(** The zero value of a type ([reflect.Zero], and what [reflect.New] points
    to). *)
Fixpoint zero (t : type) : Val :=
  match t with
  | TBasic Bool _ => VBool false
  | TBasic (Int | Int8 | Int16 | Int32 | Int64) _ => VInt 0
  | TBasic (Uint | Uint8 | Uint16 | Uint32 | Uint64 | Uintptr) _ => VUint 0
  | TBasic (Float32 | Float64) _ => VFloat float_zero
  | TBasic String_ _ => VString ""
  | TBasic _ _ => VOpaque 0
  | TPtr _ => VPtr None
  | TSlice _ _ => VSlice []
  | TStruct fields _ =>
      VStruct ((fix zeros (fs : list StructField) : list Val :=
                  match fs with
                  | [] => []
                  | mkField _ _ t :: fs' => zero t :: zeros fs'
                  end) fields)
  | TTime => VTime Time_zero
  end.

(** A field can be set when it is exported, that is when its name starts
    with an upper-case letter ([token.IsExported]); this is what
    [structField.CanSet()] tests on the fields of an addressable struct. *)
Definition IsExported (name : string) : bool :=
  match name with
  | EmptyString => false
  | String c _ =>
      if strings.isASCII_byte c then strings.isUpper_byte c else unicodeIsUpper name
  end.

Definition CanSet (f : StructField) : bool := IsExported (Name f).

(** ** The scalar setters *)

(** Conversion to a signed or unsigned integer type of [bits] bits. *)
Definition wrap_int (bits x : Z) : Z := (x + 2 ^ (bits - 1)) mod 2 ^ bits - 2 ^ (bits - 1).
Definition wrap_uint (bits x : Z) : Z := x mod 2 ^ bits.

(** [field.SetInt(x)] and [field.SetUint(x)] on a field of type [t]: the
    value is converted to the type of the field.  On a field of another
    kind [reflect] panics; the binder calls them on the kinds listed only. *)
Definition SetInt (t : type) (x : Z) (field : Val) : Val :=
  match t with
  | TBasic Int _ => VInt (wrap_int IntSize x)
  | TBasic Int8 _ => VInt (wrap_int 8 x)
  | TBasic Int16 _ => VInt (wrap_int 16 x)
  | TBasic Int32 _ => VInt (wrap_int 32 x)
  | TBasic Int64 _ => VInt (wrap_int 64 x)
  | _ => field
  end.

Definition SetUint (t : type) (x : Z) (field : Val) : Val :=
  match t with
  | TBasic Uint _ => VUint (wrap_uint IntSize x)
  | TBasic Uint8 _ => VUint (wrap_uint 8 x)
  | TBasic Uint16 _ => VUint (wrap_uint 16 x)
  | TBasic Uint32 _ => VUint (wrap_uint 32 x)
  | TBasic Uint64 _ => VUint (wrap_uint 64 x)
  | _ => field
  end.

(** [setIntField(value, bitSize, field)], [field] of type [t]. *)
Definition setIntField (value : string) (bitSize : Z) (t : type) (field : Val)
  : Val * option error :=
  let value := if String.eqb value "" then "0" else value in
  let '(intVal, err) := strconv.ParseInt IntSize value bitSize in
  match err with
  | None => (SetInt t intVal field, err)
  | Some _ => (field, err)
  end.

Definition setUintField (value : string) (bitSize : Z) (t : type) (field : Val)
  : Val * option error :=
  let value := if String.eqb value "" then "0" else value in
  let '(uintVal, err) := strconv.ParseUint IntSize value bitSize in
  match err with
  | None => (SetUint t uintVal field, err)
  | Some _ => (field, err)
  end.

Definition setBoolField (value : string) (field : Val) : Val * option error :=
  let value := if String.eqb value "" then "false" else value in
  let '(boolVal, err) := strconv.ParseBool value in
  match err with
  | None => (VBool boolVal, err)
  | Some _ => (field, err)
  end.

(** [field.SetFloat(floatVal)] stores [floatVal] converted to the type of
    the field; [ParseFloat(s, 32)] returns, when it succeeds, a value that
    converts to [float32] unchanged, so the value is stored as returned. *)
Definition setFloatField (value : string) (bitSize : Z) (field : Val)
  : Val * option error :=
  let value := if String.eqb value "" then "0.0" else value in
  let '(floatVal, err) := ParseFloat value bitSize in
  match err with
  | None => (VFloat floatVal, err)
  | Some _ => (field, err)
  end.

(** [setTimeField(value, structField, field)]. *)
Definition setTimeField (value : string) (structField : StructField) (field : Val)
  : Val * option error :=
  let timeFormat := Tag_Get (Tag structField) "time_format" in
  if String.eqb timeFormat "" then (field, Some (errorString "Blank time format"))
  else if String.eqb value "" then (VTime Time_zero, None)
  else
    let l := Local_ in
    let l := if fst (strconv.ParseBool (Tag_Get (Tag structField) "time_utc")) then UTC else l in
    let locTag := Tag_Get (Tag structField) "time_location" in
    let '(l, err) :=
      if negb (String.eqb locTag "") then LoadLocation locTag else (l, None) in
    match err with
    | Some _ => (field, err)
    | None =>
        let '(t, err) := ParseInLocation timeFormat value l in
        match err with
        | Some _ => (field, err)
        | None => (VTime t, None)
        end
    end.

(** ** The custom-unmarshal hook *)

(** The [UnmarshalParam] method of [*t], if [*t] has one. *)
Definition method (t : type) : option Unmarshaler :=
  match t with
  | TBasic _ um | TSlice _ um | TStruct _ um => um
  | TPtr _ | TTime => None
  end.

(** [bindUnmarshaler(field)], [field] of type [t]: the method bound to
    [reflect.New(field.Type())], a pointer to a new zero value of [t].  The
    bound method is given as the function from the parameter to the value
    the new pointer points to afterwards and the error. *)
Definition bindUnmarshaler (t : type) : option (string -> Val * option error) :=
  match method t with
  | Some um => Some (fun param => um param (zero t))
  | None => None
  end.

(** [unmarshalFieldNonPtr(value, field)], [field] of type [t]: the new
    value of [field] comes with the two results. *)
Definition unmarshalFieldNonPtr (value : string) (t : type) (field : Val)
  : bool * Val * option error :=
  match bindUnmarshaler t with
  | Some unmarshaler =>
      let '(recv, err) := unmarshaler value in
      (true, recv, err)
  | None => (false, field, None)
  end.

(** The pointee of a pointer of type [*elem] once a nil pointer has been
    set to [reflect.New(elem)]. *)
Definition pointee (elem : type) (field : Val) : Val :=
  match field with
  | VPtr (Some v) => v
  | _ => zero elem
  end.

(** [unmarshalFieldPtr(value, field)], [field] of type [*elem]. *)
Definition unmarshalFieldPtr (value : string) (elem : type) (field : Val)
  : bool * Val * option error :=
  let '(ok, v, err) := unmarshalFieldNonPtr value elem (pointee elem field) in
  (ok, VPtr (Some v), err).

(** [unmarshalField(valueKind, val, field)], [field] of type [t] and
    [valueKind] the kind of [t]. *)
Definition unmarshalField (t : type) (val : string) (field : Val)
  : bool * Val * option error :=
  match t with
  | TPtr elem => unmarshalFieldPtr val elem field
  | _ => unmarshalFieldNonPtr val t field
  end.

(** [setWithProperType(valueKind, val, structField)], [structField] of
    type [t] and [valueKind] the kind of [t]. *)
Fixpoint setWithProperType (t : type) (val : string) (structField : Val)
  : Val * option error :=
  let '(ok, structField, err) := unmarshalField t val structField in
  if ok then (structField, err)
  else
    match t with
    | TPtr elem =>
        let '(v, err) := setWithProperType elem val (pointee elem structField) in
        (VPtr (Some v), err)
    | TBasic Int _ => setIntField val 0 t structField
    | TBasic Int8 _ => setIntField val 8 t structField
    | TBasic Int16 _ => setIntField val 16 t structField
    | TBasic Int32 _ => setIntField val 32 t structField
    | TBasic Int64 _ => setIntField val 64 t structField
    | TBasic Uint _ => setUintField val 0 t structField
    | TBasic Uint8 _ => setUintField val 8 t structField
    | TBasic Uint16 _ => setUintField val 16 t structField
    | TBasic Uint32 _ => setUintField val 32 t structField
    | TBasic Uint64 _ => setUintField val 64 t structField
    | TBasic Bool _ => setBoolField val structField
    | TBasic Float32 _ => setFloatField val 32 structField
    | TBasic Float64 _ => setFloatField val 64 structField
    | TBasic String_ _ => (VString val, None)
    | _ => (structField, Some (errorString "unknown type"))
    end.

(** ** The struct walker *)

(** The source data, a [map[string][]string], as the list of its entries
    in the order in which a [range] over the map visits them (an order the
    Go runtime does not fix: the theorems hold for every order).  A key
    occurs once in a map; a lookup takes the first entry of a key. *)
Definition Data : Type := list (string * list string).

(** [data[key]] with its [exists] result. *)
Definition map_index (data : Data) (key : string) : option (list string) :=
  option_map snd (find (fun kv => String.eqb (fst kv) key) data).

(** The [range] loop of lines 143-149: the value of the first entry whose
    lower-cased key is [inputFieldName]. *)
Fixpoint scan (data : Data) (inputFieldName : string) : option (list string) :=
  match data with
  | [] => None
  | (k, v) :: data' =>
      if String.eqb (ToLower k) inputFieldName then Some v
      else scan data' inputFieldName
  end.

(** Lines 136-150: [inputValue] where [exists] holds at line 152. *)
Definition resolve (data : Data) (inputFieldName : string) : option (list string) :=
  match map_index data inputFieldName with
  | Some inputValue => Some inputValue
  | None => scan data (ToLower inputFieldName)
  end.

(** The loop of lines 172-176 from index [j], with [n] iterations left:
    [slice.Index(j)] is set from [inputValue[j]]. *)
Fixpoint fillSlice (sliceOf : type) (inputValue : list string) (n : nat) (j : nat)
  (slice : list Val) : res (list Val * option error) :=
  match n with
  | O => Ret (slice, None)
  | S n' =>
      match inputValue !! j with
      | None => Panic (IndexOutOfRange j (length inputValue))
      | Some s =>
          let '(v, err) := setWithProperType sliceOf s (nth j slice (zero sliceOf)) in
          match err with
          | Some _ => Ret (slice, err)
          | None => fillSlice sliceOf inputValue n' (S j) (<[j:=v]> slice)
          end
      end
  end.

(** [structField.Type().Elem()], the element type of a slice type. *)
Definition Elem (t : type) : type :=
  match t with
  | TSlice elem _ => elem
  | _ => t
  end.

(** The test [structField.Interface().(time.Time)] of line 179: the field
    is of type [time.Time].  (A field of interface type, whose dynamic
    value is not modelled, does not count as one.) *)
Definition isTime (t : type) : bool := match t with TTime => true | _ => false end.

(** Lines 156-183: the field of descriptor [typeField] and value
    [structField] is set from [inputValue], the value list of the resolved
    key.  Returns the new value of the field and how the iteration ends.
    At line 180 [setTimeField] is given the first value of the list. *)
Definition assignField (typeField : StructField) (structField : Val)
  (inputValue : list string) : res (Val * flow) :=
  let t := Type_ typeField in
  match inputValue !! 0%nat with
  | None => Panic (IndexOutOfRange 0 (length inputValue))
  | Some v0 =>
      let '(ok, structField, err) := unmarshalField t v0 structField in
      if ok then
        match err with
        | Some _ => Ret (structField, Return err)
        | None => Ret (structField, Continue)
        end
      else
        let numElems := length inputValue in
        if is_Slice (Kind_of t) && (0 <? numElems)%nat then
          let sliceOf := Elem t in
          let slice := repeat (zero sliceOf) numElems in
          match fillSlice sliceOf inputValue numElems 0 slice with
          | Panic p => Panic p
          | Ret (_, Some err) => Ret (structField, Return (Some err))
          | Ret (slice, None) => Ret (VSlice slice, Continue)
          end
        else if isTime t then
          match inputValue !! 0%nat with
          | None => Panic (IndexOutOfRange 0 (length inputValue))
          | Some v0 =>
              let '(v, err) := setTimeField v0 typeField structField in
              Ret (v, Return err)
          end
        else
          match inputValue !! 0%nat with
          | None => Panic (IndexOutOfRange 0 (length inputValue))
          | Some v0 =>
              let '(v, err) := setWithProperType t v0 structField in
              match err with
              | Some _ => Ret (v, Return err)
              | None => Ret (v, Continue)
              end
          end
  end.

(** The name the field is looked up by: its tag for the binding mode, or
    its declared name (lines 118-121). *)
Definition inputFieldName (typeField : StructField) (tag : string) : string :=
  let name := Tag_Get (Tag typeField) tag in
  if String.eqb name "" then Name typeField else name.

(** Lines 119-131: the field has no tag for the mode, its type has no
    [UnmarshalParam] and is of kind struct. *)
Definition nested (typeField : StructField) (tag : string) : bool :=
  String.eqb (Tag_Get (Tag typeField) tag) ""
  && match bindUnmarshaler (Type_ typeField) with Some _ => false | None => true end
  && is_Struct (Kind_of (Type_ typeField)).

(** The body of the loop of [bindData] (lines 106-183) for the field of
    descriptor [typeField] and value [structField]; [recurse] is the call
    of [bindData] on the address of the field (line 127). *)
Definition bindField (recurse : type -> Val -> res (Val * option error))
  (data : Data) (tag : string) (typeField : StructField) (structField : Val)
  : res (Val * flow) :=
  if negb (CanSet typeField) then Ret (structField, Continue)
  else if nested typeField tag then
    match recurse (Type_ typeField) structField with
    | Panic p => Panic p
    | Ret (v, Some err) => Ret (v, Return (Some err))
    | Ret (v, None) => Ret (v, Continue)
    end
  else
    match resolve data (inputFieldName typeField tag) with
    | None => Ret (structField, Continue)
    | Some inputValue => assignField typeField structField inputValue
    end.

(** The loop of [bindData] from field [i] on: [fs] are the descriptors of
    the fields from [i], [vs] the values of all the fields of the struct. *)
Definition bindFields (recurse : type -> Val -> res (Val * option error))
  (data : Data) (tag : string)
  : list StructField -> nat -> list Val -> res (Val * option error) :=
  fix loop (fs : list StructField) (i : nat) (vs : list Val) {struct fs} :=
    match fs with
    | [] => Ret (VStruct vs, None)
    | typeField :: fs' =>
        match vs !! i with
        | None => Panic (ReflectFieldIndex i)
        | Some structField =>
            match bindField recurse data tag typeField structField with
            | Panic p => Panic p
            | Ret (v, Continue) => loop fs' (S i) (<[i:=v]> vs)
            | Ret (v, Return err) => Ret (VStruct (<[i:=v]> vs), err)
            end
        end
    end.

(** The values of the fields of a struct value. *)
Definition Fields (val : Val) : list Val :=
  match val with
  | VStruct vs => vs
  | _ => []
  end.

(** [bindData(ptr, data, tag)], [ptr] a pointer to [val] of type [typ]:
    the new value of [val] and the error returned, or a panic.  The three
    fields of a [time.Time] are unexported, so that the loop over them
    changes nothing. *)
Fixpoint bindData (typ : type) (val : Val) (data : Data) (tag : string) {struct typ}
  : res (Val * option error) :=
  match typ with
  | TStruct fields _ =>
      bindFields (fun t v => bindData t v data tag) data tag fields 0%nat (Fields val)
  | TTime => Ret (val, None)
  | _ => Ret (val, Some (errorString "binding element must be a struct"))
  end.

End Binder.

(** ** Definitions for the statements *)

(** The widths of the sized integer types. *)
Definition width (bits : Z) : Prop := bits = 8 \/ bits = 16 \/ bits = 32 \/ bits = 64.

(** The width [bitSize] stands for in [ParseInt] and [ParseUint]: 0 is the
    width of [int]. *)
Definition bits_of (IntSize bitSize : Z) : Z := if bitSize =? 0 then IntSize else bitSize.

(** The tokens [strconv.ParseBool] reads as true and as false. *)
Definition true_tokens : list string := ["1"; "t"; "T"; "TRUE"; "true"; "True"].
Definition false_tokens : list string := ["0"; "f"; "F"; "FALSE"; "false"; "False"].

(** The scalar kinds [setWithProperType] converts. *)
Definition scalar (b : Basic) : bool :=
  match b with
  | Bool | Int | Int8 | Int16 | Int32 | Int64
  | Uint | Uint8 | Uint16 | Uint32 | Uint64
  | Float32 | Float64 | String_ => true
  | _ => false
  end.

(** The width in bits of the signed and of the unsigned integer kinds. *)
Definition signed_width `{Runtime} (b : Basic) : option Z :=
  match b with
  | Int => Some IntSize
  | Int8 => Some 8
  | Int16 => Some 16
  | Int32 => Some 32
  | Int64 => Some 64
  | _ => None
  end.

Definition unsigned_width `{Runtime} (b : Basic) : option Z :=
  match b with
  | Uint => Some IntSize
  | Uint8 => Some 8
  | Uint16 => Some 16
  | Uint32 => Some 32
  | Uint64 => Some 64
  | _ => None
  end.

(** A runtime to evaluate the binder on: a 64-bit platform whose floats
    and times are integers, where [ParseFloat] reads ["0.0"] only, no time
    parses, and non-ASCII text is taken to be without upper-case letters. *)
Definition example_runtime : Runtime := {|
  intSize := bits64;
  float := Z;
  float_zero := 0;
  ParseFloat := fun s _ =>
    if String.eqb s "0.0" then (0, None) else (0, Some (NumError "ParseFloat" s ErrSyntax));
  Time := Z;
  Time_zero := 0;
  Location := string;
  Local_ := "Local";
  UTC := "UTC";
  LoadLocation := fun name => (name, None);
  ParseInLocation := fun _ value _ => (0, Some (foreignError "parsing time"));
  unicodeToLower := fun s => s;
  unicodeIsUpper := fun _ => false
|}.

(** An [UnmarshalParam] that rejects every parameter and leaves its
    receiver as it is, and an integer type with this method. *)
Definition failing_hook `{Runtime} : Unmarshaler :=
  fun _ recv => (recv, Some (foreignError "invalid")).

Definition hooked_int `{Runtime} : type := TBasic Int64 (Some failing_hook).

(** The walker goes into the field instead of looking it up. *)
Definition recursed `{Runtime} (typeField : StructField) (tag : string) : bool :=
  CanSet typeField && nested typeField tag.

(** The values of all keys have at least one element. *)
Definition nonempty_values (data : Data) : Prop :=
  forall k v, In (k, v) data -> v <> [].

(** The types and values of the examples: a struct with the one field
    [name string], a struct with the one field [In struct { A int64 }], the
    same with the field named [inner], a struct with the fields [A int64] and [B string], a struct with a
    [time.Time] field [At] tagged [query:"at"]. *)
Definition lower_name_struct `{Runtime} : type :=
  TStruct [mkField "name" [] (TBasic String_ None)] None.

Definition In_field `{Runtime} : StructField :=
  mkField "In" [] (TStruct [mkField "A" [] (TBasic Int64 None)] None).

Definition outer_struct `{Runtime} : type := TStruct [In_field] None.


Definition A_field `{Runtime} : StructField := mkField "A" [] (TBasic Int64 None).
Definition B_field `{Runtime} : StructField := mkField "B" [] (TBasic String_ None).


(** [val] has the fields of [typ], as far as the walker goes: a value of
    a struct type is a struct with a value for each field, and so are the
    values of its fields. *)
Inductive shaped `{Runtime} : type -> Val -> Prop :=
| shaped_struct (fields : list StructField) (um : option Unmarshaler) (vs : list Val) :
    Forall2 (fun f v => shaped (Type_ f) v) fields vs ->
    shaped (TStruct fields um) (VStruct vs)
| shaped_other (t : type) (v : Val) :
    (forall fields um, t <> TStruct fields um) -> shaped t v.



(** ** Definitions for further statements *)

(** Decimal numerals: a byte [0] to [9], a string of such bytes, a
    non-empty one, and one with an optional sign in front. *)
Definition is_digit (c : ascii) : bool :=
  (48 <=? strconv.byte_of c) && (strconv.byte_of c <=? 57).

Fixpoint all_digits (s : string) : bool :=
  match s with
  | EmptyString => true
  | String c s' => is_digit c && all_digits s'
  end.

Definition decimal (s : string) : bool := negb (String.eqb s "") && all_digits s.

Definition signed_decimal (s : string) : bool :=
  match s with
  | EmptyString => false
  | String c s' =>
      if Ascii.eqb c "+" || Ascii.eqb c "-" then decimal s' else decimal s
  end.

(** The number a string of decimal digits stands for, read after the
    digits of [acc]; the number of a decimal numeral, and of one with an
    optional sign in front. *)
Fixpoint digits_value (s : string) (acc : Z) : Z :=
  match s with
  | EmptyString => acc
  | String c s' => digits_value s' (acc * 10 + (strconv.byte_of c - 48))
  end.

Definition decimal_value (s : string) : Z := digits_value s 0.

Definition signed_value (s : string) : Z :=
  match s with
  | EmptyString => 0
  | String c s' =>
      if Ascii.eqb c "+" then decimal_value s'
      else if Ascii.eqb c "-" then - decimal_value s'
      else decimal_value s
  end.

(** The value at the end of a path of field indices, from [val] down. *)
Fixpoint at_path `{Runtime} (val : Val) (path : list nat) : option Val :=
  match path with
  | [] => Some val
  | j :: path' =>
      match Fields val !! j with
      | Some v => at_path v path'
      | None => None
      end
  end.

(** [path] leads from a struct of type [typ] to a field that is not
    exported, through fields that the walker goes into. *)
Inductive unexported_at `{Runtime} (tag : string) : type -> list nat -> Prop :=
| unexported_here (fields : list StructField) (um : option Unmarshaler) (j : nat)
    (f : StructField) :
    fields !! j = Some f -> CanSet f = false ->
    unexported_at tag (TStruct fields um) [j]
| unexported_below (fields : list StructField) (um : option Unmarshaler) (j : nat)
    (f : StructField) (path : list nat) :
    fields !! j = Some f -> recursed f tag = true ->
    unexported_at tag (Type_ f) path ->
    unexported_at tag (TStruct fields um) (j :: path).

(** ** The front end: [DefaultBinder.Bind] *)

(** What [Bind] reads of the request: [req.ContentLength], [req.Method],
    [req.Header.Get(HeaderContentType)] and [req.Body]. *)
Record Request : Type := mkRequest {
  ContentLength : Z;
  Method : string;
  ContentType : string;
  Body : string
}.

(** The errors [Bind] can meet: those of the walker, and the typed errors
    of the JSON and XML decoders it looks for ([Type_] is the printed form
    of a [reflect.Type]). *)
Inductive goerror : Type :=
| binder_error (e : error)
| json_UnmarshalTypeError (Value Type_ Field : string) (Offset : Z)
| json_SyntaxError (msg : string) (Offset : Z)
| xml_UnsupportedTypeError (Type_ : string)
| xml_SyntaxError (Msg : string) (Line : Z).

(** The context of a request: [c.Request()], [c.QueryParams()] and the two
    results of [c.FormParams()]. *)
Record Context : Type := mkContext {
  Request_ : Request;
  QueryParams : Data;
  FormParams : Data * option goerror
}.

(** The parts of package echo and of the Go library that [Bind] uses and
    that are declared elsewhere: the HTTP error type with [NewHTTPError],
    [SetInternal] and [ErrUnsupportedMediaType], the MIME constants, the
    method [Error()] of an error, and [Decode] of a JSON and of an XML
    decoder on the body, which return the target as they leave it. *)
Class Echo `{Runtime} : Type := {
  HTTPError : Type;
  NewHTTPError : Z -> string -> HTTPError;
  SetInternal : HTTPError -> goerror -> HTTPError;
  ErrUnsupportedMediaType : HTTPError;
  MIMEApplicationJSON : string;
  MIMEApplicationXML : string;
  MIMETextXML : string;
  MIMEApplicationForm : string;
  MIMEMultipartForm : string;
  Error : goerror -> string;
  json_Decode : string -> type -> Val -> Val * option goerror;
  xml_Decode : string -> type -> Val -> Val * option goerror
}.

(** [http.StatusBadRequest], [http.MethodGet], [http.MethodDelete]. *)
Definition StatusBadRequest : Z := 400.
Definition MethodGet : string := "GET".
Definition MethodDelete : string := "DELETE".

(** [strings.HasPrefix(s, prefix)]. *)
Definition HasPrefix (s prefix : string) : bool := String.prefix prefix s.

(** [fmt.Sprintf] with the verb [%v] on an integer. *)
Definition Sprint_int (i : Z) : string := strconv.FormatInt i.

(** What lines 35-37 and 70-72 do with the result of [bindData]. *)
Definition bad_request `{Echo} (r : res (Val * option error)) : res (Val * option HTTPError) :=
  match r with
  | Panic p => Panic p
  | Ret (i, None) => Ret (i, None)
  | Ret (i, Some err) =>
      Ret (i, Some (SetInternal
                      (NewHTTPError StatusBadRequest (Error (binder_error err)))
                      (binder_error err)))
  end.

(** [Bind(i, c)], [i] a pointer to [val] of type [typ]: the new value of
    [val] and the error returned, or a panic. *)
Definition Bind `{Echo} (typ : type) (val : Val) (c : Context) : res (Val * option HTTPError) :=
  let req := Request_ c in
  if ContentLength req =? 0 then
    if String.eqb (Method req) MethodGet || String.eqb (Method req) MethodDelete then
      bad_request (bindData typ val (QueryParams c) "query")
    else
      Ret (val, Some (NewHTTPError StatusBadRequest "Request body can't be empty"))
  else
    let ctype := ContentType req in
    if HasPrefix ctype MIMEApplicationJSON then
      match json_Decode (Body req) typ val with
      | (i, None) => Ret (i, None)
      | (i, Some err) =>
          let message :=
            match err with
            | json_UnmarshalTypeError value type_ field offset =>
                "Unmarshal type error: expected=" ++ type_ ++ ", got=" ++ value
                ++ ", field=" ++ field ++ ", offset=" ++ Sprint_int offset
            | json_SyntaxError _ offset =>
                "Syntax error: offset=" ++ Sprint_int offset ++ ", error=" ++ Error err
            | _ => Error err
            end in
          Ret (i, Some (SetInternal (NewHTTPError StatusBadRequest message) err))
      end
    else if HasPrefix ctype MIMEApplicationXML || HasPrefix ctype MIMETextXML then
      match xml_Decode (Body req) typ val with
      | (i, None) => Ret (i, None)
      | (i, Some err) =>
          let message :=
            match err with
            | xml_UnsupportedTypeError type_ =>
                "Unsupported type error: type=" ++ type_ ++ ", error=" ++ Error err
            | xml_SyntaxError _ line =>
                "Syntax error: line=" ++ Sprint_int line ++ ", error=" ++ Error err
            | _ => Error err
            end in
          Ret (i, Some (SetInternal (NewHTTPError StatusBadRequest message) err))
      end
    else if HasPrefix ctype MIMEApplicationForm || HasPrefix ctype MIMEMultipartForm then
      match FormParams c with
      | (_, Some err) =>
          Ret (val, Some (SetInternal (NewHTTPError StatusBadRequest (Error err)) err))
      | (params, None) => bad_request (bindData typ val params "form")
      end
    else Ret (val, Some ErrUnsupportedMediaType).

(** An instance to evaluate [Bind] on: HTTP errors as records of code,
    message and cause, the MIME constants of echo, an error text that
    names the kind of error only, and decoders that fail on every body. *)
Definition example_echo : @Echo example_runtime := {|
  HTTPError := Z * string * option goerror;
  NewHTTPError := fun code message => (code, message, None);
  SetInternal := fun e cause => (fst (fst e), snd (fst e), Some cause);
  ErrUnsupportedMediaType := (415, "Unsupported Media Type", None);
  MIMEApplicationJSON := "application/json";
  MIMEApplicationXML := "application/xml";
  MIMETextXML := "text/xml";
  MIMEApplicationForm := "application/x-www-form-urlencoded";
  MIMEMultipartForm := "multipart/form-data";
  Error := fun e =>
    match e with
    | binder_error (errorString s) => s
    | binder_error _ => "binder error"
    | json_SyntaxError msg _ => msg
    | _ => "decoder error"
    end;
  json_Decode := fun _ _ v => (v, Some (json_SyntaxError "unexpected end of JSON input" 0));
  xml_Decode := fun _ _ v => (v, Some (xml_SyntaxError "unexpected EOF" 1))
|}.

(** Fields, targets and requests of the examples: a field [Ids []int64],
    a [time.Time] field tagged [query:"at"] with a format, a struct with
    the fields [A int64] and [In struct { A int64 }] and a value of it,
    and requests with and without a body. *)
Definition Ids_field `{Runtime} : StructField :=
  mkField "Ids" [] (TSlice (TBasic Int64 None) None).

Definition At_format_field `{Runtime} : StructField :=
  mkField "At" [("query", "at"); ("time_format", "2006-01-02")] TTime.

Definition A_In_struct `{Runtime} : type := TStruct [A_field; In_field] None.

Definition A_In_value : @Val example_runtime := VStruct [VInt 3; VStruct [VInt 4]].

(** A struct with the fields [A int64] and [In struct { A int64; secret
    string }], and a value of it. *)
Definition secret_field `{Runtime} : StructField := mkField "secret" [] (TBasic String_ None).

Definition A_secret_struct `{Runtime} : type :=
  TStruct [A_field; mkField "In" [] (TStruct [A_field; secret_field] None)] None.

Definition A_secret_value : @Val example_runtime :=
  VStruct [VInt 3; VStruct [VInt 4; VString "kept"]].

Definition post_without_body : Context :=
  mkContext (mkRequest 0 "POST" "application/json" "") [("A", ["1"])] ([], None).

Definition get_request (query : Data) : Context :=
  mkContext (mkRequest 0 "GET" "text/plain" "") query ([("A", ["9"])], None).

Definition octet_stream_request : Context :=
  mkContext (mkRequest 5 "POST" "application/octet-stream" "hello") [] ([], None).

(** * Facts on the parsers of strconv *)

Ltac width_cases H :=
  destruct H as [-> | [-> | [-> | ->]]].

Module strconv_facts.
Import strconv.

Lemma digit_of_digit_char (d : Z) :
  0 <= d < 10 -> digit_of (byte_of (digit_char d)) = Some d.
Proof.
  intros Hd.
  assert (H : d = 0 \/ d = 1 \/ d = 2 \/ d = 3 \/ d = 4 \/ d = 5 \/ d = 6 \/ d = 7
              \/ d = 8 \/ d = 9) by lia.
  repeat (destruct H as [-> | H]; [reflexivity |]). subst d. reflexivity.
Qed.

Lemma ParseUint_loop_digit (maxVal : Z) (d n : Z) (s : string) :
  0 <= n -> 0 <= d < 10 -> n * 10 + d <= maxVal -> maxVal <= maxUint64 ->
  ParseUint_loop maxVal (String (digit_char d) s) n = ParseUint_loop maxVal s (n * 10 + d).
Proof.
  intros Hn Hd Hle Hmax. cbn [ParseUint_loop].
  rewrite (digit_of_digit_char d Hd).
  unfold cutoff10, uint64 in *. unfold maxUint64 in *.
  change (2 ^ 64 - 1) with 18446744073709551615 in *.
  change (18446744073709551615 / 10 + 1) with 1844674407370955162.
  change (2 ^ 64) with 18446744073709551616.
  destruct (Z.leb_spec 10 d); [lia |].
  destruct (Z.leb_spec 1844674407370955162 n); [lia |].
  rewrite (Z.mod_small (n * 10)) by lia.
  rewrite (Z.mod_small (n * 10 + d)) by lia.
  destruct (Z.ltb_spec (n * 10 + d) (n * 10)); [lia |].
  destruct (Z.ltb_spec maxVal (n * 10 + d)); [lia |].
  reflexivity.
Qed.

Lemma ParseUint_loop_formatBits (maxVal : Z) (fuel : nat) :
  maxVal <= maxUint64 ->
  forall (u : Z) (acc : string),
    0 <= u < 10 ^ (Z.of_nat fuel + 1) -> u <= maxVal ->
    ParseUint_loop maxVal (formatBits fuel u acc) 0 = ParseUint_loop maxVal acc u.
Proof.
  intros Hmax. induction fuel as [| fuel IH]; intros u acc Hu Hle.
  - change (10 ^ (Z.of_nat 0 + 1)) with 10 in Hu. cbn [formatBits].
    rewrite Z.mod_small by lia.
    rewrite ParseUint_loop_digit by lia. reflexivity.
  - cbn [formatBits]. destruct (Z.ltb_spec u 10) as [Hlt | Hge].
    + rewrite ParseUint_loop_digit by lia. reflexivity.
    + assert (Hdm : u = 10 * (u / 10) + u mod 10) by (apply Z.div_mod; lia).
      assert (Hm : 0 <= u mod 10 < 10) by (apply Z.mod_pos_bound; lia).
      rewrite IH.
      * rewrite ParseUint_loop_digit by lia. f_equal. lia.
      * split; [apply Z.div_pos; lia |].
        apply Z.div_lt_upper_bound; [lia |].
        replace (Z.of_nat (S fuel) + 1) with (Z.succ (Z.of_nat fuel + 1)) in Hu by lia.
        rewrite Z.pow_succ_r in Hu by lia. lia.
      * lia.
Qed.

Lemma formatBits_head (fuel : nat) :
  forall (u : Z) (acc : string), 0 <= u ->
    exists d s', 0 <= d < 10 /\ formatBits fuel u acc = String (digit_char d) s'.
Proof.
  induction fuel as [| fuel IH]; intros u acc Hu; cbn [formatBits].
  - exists (u mod 10), acc. split; [apply Z.mod_pos_bound; lia | reflexivity].
  - destruct (Z.ltb_spec u 10).
    + exists u, acc. split; [lia | reflexivity].
    + apply IH. apply Z.div_pos; lia.
Qed.

Lemma digit_char_not_sign (d : Z) (s' : string) :
  0 <= d < 10 ->
  match String (digit_char d) s' with
  | String "+"%char r => (false, r)
  | String "-"%char r => (true, r)
  | _ => (false, String (digit_char d) s')
  end = (false, String (digit_char d) s').
Proof.
  intros Hd.
  assert (H : d = 0 \/ d = 1 \/ d = 2 \/ d = 3 \/ d = 4 \/ d = 5 \/ d = 6 \/ d = 7
              \/ d = 8 \/ d = 9) by lia.
  repeat (destruct H as [-> | H]; [reflexivity |]). subst d. reflexivity.
Qed.

Section RoundTrip.

Variable IntSize : Z.
Hypothesis IntSize_32_or_64 : IntSize = 32 \/ IntSize = 64.

Lemma ParseUint_formatBits (bitSize u : Z) :
  bitSize = 0 \/ width bitSize ->
  0 <= u < 2 ^ bits_of IntSize bitSize ->
  ParseUint IntSize (formatBits 19 u "") bitSize = (u, None).
Proof.
  intros Hbs Hu. unfold ParseUint.
  destruct (formatBits_head 19 u "" ltac:(lia)) as (d & s' & Hd & Heq).
  rewrite Heq. cbn [String.eqb]. rewrite <- Heq.
  assert (Hb : 0 <= bitSize <= 64) by (destruct Hbs as [-> | Hw]; [lia | width_cases Hw; lia]).
  destruct (Z.ltb_spec bitSize 0); [lia |].
  destruct (Z.ltb_spec 64 bitSize); [lia |].
  cbn [orb]. fold (bits_of IntSize bitSize).
  assert (Hbits : width (bits_of IntSize bitSize)).
  { unfold bits_of. destruct Hbs as [-> | Hw].
    - cbn. unfold width. lia.
    - destruct (Z.eqb_spec bitSize 0); [width_cases Hw; lia | exact Hw]. }
  assert (Hmax : uint64 (uint64 (2 ^ bits_of IntSize bitSize) - 1) = 2 ^ bits_of IntSize bitSize - 1
                 /\ 2 ^ bits_of IntSize bitSize <= 2 ^ 64).
  { width_cases Hbits; split; (reflexivity || lia). }
  destruct Hmax as [-> Hle].
  rewrite ParseUint_loop_formatBits.
  - reflexivity.
  - unfold maxUint64. lia.
  - change (Z.of_nat 19 + 1) with 20. assert (2 ^ 64 < 10 ^ 20) by reflexivity. lia.
  - lia.
Qed.


Lemma ParseInt_FormatInt (bitSize i : Z) :
  bitSize = 0 \/ width bitSize ->
  - 2 ^ (bits_of IntSize bitSize - 1) <= i < 2 ^ (bits_of IntSize bitSize - 1) ->
  ParseInt IntSize (FormatInt i) bitSize = (i, None).
Proof.
  intros Hbs Hi.
  assert (Hbits : width (bits_of IntSize bitSize)).
  { unfold bits_of. destruct Hbs as [-> | Hw].
    - cbn. unfold width. lia.
    - destruct (Z.eqb_spec bitSize 0); [width_cases Hw; lia | exact Hw]. }
  assert (Hpow : 2 ^ bits_of IntSize bitSize = 2 * 2 ^ (bits_of IntSize bitSize - 1)
                 /\ 0 < 2 ^ (bits_of IntSize bitSize - 1) <= 2 ^ 63).
  { width_cases Hbits; split; (reflexivity || lia). }
  destruct Hpow as [Hdouble Hhalf].
  unfold ParseInt, FormatInt.
  destruct (Z.ltb_spec i 0) as [Hneg | Hpos].
  - cbn [String.eqb]. cbv beta iota zeta.
    assert (Hu : uint64 (- i) = - i).
    { unfold uint64. apply Z.mod_small. change (2 ^ 64) with (2 * 2 ^ 63). lia. }
    rewrite Hu, ParseUint_formatBits by (try assumption; lia).
    cbv beta iota zeta. fold (bits_of IntSize bitSize).
    assert (Hcut : uint64 (2 ^ (bits_of IntSize bitSize - 1)) = 2 ^ (bits_of IntSize bitSize - 1)).
    { unfold uint64. apply Z.mod_small. change (2 ^ 64) with (2 * 2 ^ 63). lia. }
    rewrite Hcut. cbn [negb andb].
    destruct (Z.ltb_spec (2 ^ (bits_of IntSize bitSize - 1)) (- i)); [lia |].
    f_equal. unfold int64. change (2 ^ 64) with (2 * 2 ^ 63) in *.
    destruct (Z.eq_dec (- i) (2 ^ 63)) as [Heq | Hne].
    + rewrite Heq. change ((2 ^ 63 + 2 ^ 63) mod (2 * 2 ^ 63) - 2 ^ 63) with (- 2 ^ 63).
      change (- - 2 ^ 63) with (2 ^ 63).
      change ((2 ^ 63 + 2 ^ 63) mod (2 * 2 ^ 63) - 2 ^ 63) with (- 2 ^ 63). lia.
    + rewrite (Z.mod_small (- i + 2 ^ 63)) by lia.
      replace (- (- i + 2 ^ 63 - 2 ^ 63) + 2 ^ 63) with (i + 2 ^ 63) by lia.
      rewrite Z.mod_small by lia. lia.
  - assert (Hu : uint64 i = i).
    { unfold uint64. apply Z.mod_small. change (2 ^ 64) with (2 * 2 ^ 63). lia. }
    rewrite Hu.
    pose proof (ParseUint_formatBits bitSize i Hbs ltac:(lia)) as HP.
    destruct (formatBits_head 19 i "" Hpos) as (d & s' & Hd & Heq).
    rewrite Heq in *. cbn [String.eqb].
    rewrite (digit_char_not_sign d s' Hd). rewrite HP.
    cbv beta iota zeta. fold (bits_of IntSize bitSize).
    assert (Hcut : uint64 (2 ^ (bits_of IntSize bitSize - 1)) = 2 ^ (bits_of IntSize bitSize - 1)).
    { unfold uint64. apply Z.mod_small. change (2 ^ 64) with (2 * 2 ^ 63). lia. }
    rewrite Hcut. cbn [negb andb].
    destruct (Z.leb_spec (2 ^ (bits_of IntSize bitSize - 1)) i); [lia |].
    f_equal. unfold int64. change (2 ^ 64) with (2 * 2 ^ 63).
    rewrite Z.mod_small by lia. lia.
Qed.

End RoundTrip.
End strconv_facts.

Example ParseInt_min_int8 : strconv.ParseInt 64 "-128" 8 = (-128, None).
Proof. reflexivity. Qed.

Example ParseInt_over_int8 :
  strconv.ParseInt 64 "128" 8 = (127, Some (NumError "ParseInt" "128" ErrRange))
  /\ strconv.ParseInt 64 "-129" 8 = (-128, Some (NumError "ParseInt" "-129" ErrRange))
  /\ strconv.ParseInt 64 "99999999999999999999999" 8
     = (127, Some (NumError "ParseInt" "99999999999999999999999" ErrRange)).
Proof. repeat split. Qed.

Example ParseInt_min_int64 :
  strconv.ParseInt 64 "-9223372036854775808" 64 = (-9223372036854775808, None).
Proof. reflexivity. Qed.

Example ParseInt_int_32 :
  strconv.ParseInt 32 "2147483648" 0
  = (2147483647, Some (NumError "ParseInt" "2147483648" ErrRange)).
Proof. reflexivity. Qed.

Example ParseInt_syntax :
  strconv.ParseInt 64 "+12a" 0 = (0, Some (NumError "ParseInt" "+12a" ErrSyntax))
  /\ strconv.ParseInt 64 "-" 0 = (0, Some (NumError "ParseInt" "-" ErrSyntax))
  /\ strconv.ParseInt 64 "1_000" 0 = (0, Some (NumError "ParseInt" "1_000" ErrSyntax))
  /\ strconv.ParseInt 64 " 1" 0 = (0, Some (NumError "ParseInt" " 1" ErrSyntax)).
Proof. repeat split. Qed.

Example ParseInt_signs :
  strconv.ParseInt 64 "+5" 16 = (5, None) /\ strconv.ParseInt 64 "-0" 16 = (0, None).
Proof. repeat split. Qed.

Example ParseUint_max_uint64 :
  strconv.ParseUint 64 "18446744073709551615" 64 = (18446744073709551615, None)
  /\ strconv.ParseUint 64 "18446744073709551616" 64
     = (18446744073709551615, Some (NumError "ParseUint" "18446744073709551616" ErrRange))
  /\ strconv.ParseUint 64 "-1" 64 = (0, Some (NumError "ParseUint" "-1" ErrSyntax)).
Proof. repeat split. Qed.

Example FormatInt_examples :
  strconv.FormatInt (-9223372036854775808) = "-9223372036854775808"
  /\ strconv.FormatInt 0 = "0"
  /\ strconv.FormatInt 1234567 = "1234567"
  /\ strconv.FormatUint 18446744073709551615 = "18446744073709551615".
Proof. repeat split. Qed.

Example ToLower_examples :
  strings.ToLower (fun s => s) "Name" = "name"
  /\ strings.ToLower (fun s => s) "user_ID" = "user_id".
Proof. repeat split. Qed.

(** * Facts on the binder *)

Section BinderFacts.

Context `{RT : Runtime}.

Lemma IntSize_width : IntSize = 32 \/ IntSize = 64.
Proof. unfold IntSize. destruct intSize; [left | right]; reflexivity. Qed.

(** ** The scalar setters *)

(** C9.  A scalar setter writes the field only when the parser of strconv
    succeeds: if [strconv.ParseInt], [ParseUint], [ParseBool] or
    [ParseFloat] returns an error on the token (the empty token read as
    ["0"], ["false"] or ["0.0"]), the setter returns that error and the
    field keeps the value it had. *)
Theorem scalar_setter_keeps_field_on_error
  (value : string) (bitSize : Z) (t : type) (field : Val) (e : error) :
  (snd (strconv.ParseInt IntSize (if String.eqb value "" then "0" else value) bitSize) = Some e ->
   setIntField value bitSize t field = (field, Some e))
  /\ (snd (strconv.ParseUint IntSize (if String.eqb value "" then "0" else value) bitSize) = Some e ->
      setUintField value bitSize t field = (field, Some e))
  /\ (snd (strconv.ParseBool (if String.eqb value "" then "false" else value)) = Some e ->
      setBoolField value field = (field, Some e))
  /\ (snd (ParseFloat (if String.eqb value "" then "0.0" else value) bitSize) = Some e ->
      setFloatField value bitSize field = (field, Some e)).
Proof.
  unfold setIntField, setUintField, setBoolField, setFloatField.
  repeat split.
  - destruct (strconv.ParseInt _ _ _) as [x err]. cbn. intros ->. reflexivity.
  - destruct (strconv.ParseUint _ _ _) as [x err]. cbn. intros ->. reflexivity.
  - destruct (strconv.ParseBool _) as [x err]. cbn. intros ->. reflexivity.
  - destruct (ParseFloat _ _) as [x err]. cbn. intros ->. reflexivity.
Qed.

(** ** Booleans *)

Lemma ParseBool_true (str : string) :
  In str true_tokens -> strconv.ParseBool str = (true, None).
Proof.
  unfold true_tokens. cbn [In]. intros H.
  repeat (destruct H as [<- | H]; [reflexivity |]). contradiction.
Qed.

Lemma ParseBool_false (str : string) :
  In str false_tokens -> strconv.ParseBool str = (false, None).
Proof.
  unfold false_tokens. cbn [In]. intros H.
  repeat (destruct H as [<- | H]; [reflexivity |]). contradiction.
Qed.

Lemma ParseBool_other (str : string) :
  ~ In str (true_tokens ++ false_tokens) ->
  strconv.ParseBool str = (false, Some (NumError "ParseBool" str ErrSyntax)).
Proof.
  unfold true_tokens, false_tokens. cbn [In app]. intros H. unfold strconv.ParseBool.
  repeat match goal with
         | |- context [String.eqb str ?s] =>
             destruct (String.eqb_spec str s) as [-> | _]; [exfalso; apply H; tauto |]
         end.
  reflexivity.
Qed.

(** C7.  [setBoolField] succeeds on the twelve tokens of [ParseBool] and
    on the empty token: the six of [true_tokens] set the field to true, the
    six of [false_tokens] and the empty token set it to false; on any other
    token it returns the syntax error of [ParseBool] and leaves the field. *)
Theorem setBoolField_tokens (value : string) (field : Val) :
  (In value true_tokens -> setBoolField value field = (VBool true, None))
  /\ (In value false_tokens \/ value = "" -> setBoolField value field = (VBool false, None))
  /\ (~ In value (true_tokens ++ false_tokens) -> value <> "" ->
      setBoolField value field = (field, Some (NumError "ParseBool" value ErrSyntax))).
Proof.
  unfold setBoolField. repeat split.
  - intros H. destruct (String.eqb_spec value "") as [-> | _].
    + cbn in H. repeat (destruct H as [H | H]; [discriminate H |]). contradiction.
    + rewrite (ParseBool_true _ H). reflexivity.
  - intros [H | ->]; [| reflexivity].
    destruct (String.eqb_spec value "") as [-> | _]; [reflexivity |].
    rewrite (ParseBool_false _ H). reflexivity.
  - intros H Hne. destruct (String.eqb_spec value "") as [-> | _]; [congruence |].
    rewrite (ParseBool_other _ H). reflexivity.
Qed.

(** ** The empty token *)

Lemma wrap_int_small (bits x : Z) :
  width bits -> - 2 ^ (bits - 1) <= x < 2 ^ (bits - 1) -> wrap_int bits x = x.
Proof.
  intros Hw Hx. unfold wrap_int.
  assert (H : 2 ^ bits = 2 * 2 ^ (bits - 1)) by (width_cases Hw; reflexivity).
  rewrite H, Z.mod_small by lia. lia.
Qed.

Lemma wrap_uint_small (bits x : Z) : 0 <= x < 2 ^ bits -> wrap_uint bits x = x.
Proof. intros Hx. unfold wrap_uint. apply Z.mod_small. exact Hx. Qed.

Lemma IntSize_is_width : width IntSize.
Proof. unfold width. destruct IntSize_width; lia. Qed.

Ltac unfold_no_method :=
  cbn [setWithProperType unmarshalField unmarshalFieldNonPtr bindUnmarshaler method];
  cbv beta iota zeta.

(** C3.  On a type of a scalar kind without an [UnmarshalParam] method,
    the empty token sets the field to the zero value of the kind (0, 0.0,
    false, the empty string) and no error is returned, given that
    [ParseFloat] reads ["0.0"] as zero. *)
Theorem empty_token_sets_zero (b : Basic) (field : Val) :
  ParseFloat "0.0" 32 = (float_zero, None) ->
  ParseFloat "0.0" 64 = (float_zero, None) ->
  scalar b = true ->
  setWithProperType (TBasic b None) "" field = (zero (TBasic b None), None).
Proof.
  intros H32 H64 Hb.
  destruct b; try discriminate Hb; unfold_no_method; try reflexivity.
  - unfold setIntField, SetInt. destruct IntSize_width as [E | E]; rewrite E; reflexivity.
  - unfold setUintField, SetUint. destruct IntSize_width as [E | E]; rewrite E; reflexivity.
  - unfold setFloatField. cbn [String.eqb]. rewrite H32. reflexivity.
  - unfold setFloatField. cbn [String.eqb]. rewrite H64. reflexivity.
Qed.

(** ** Decimal round trip *)

Lemma signed_width_bits (b : Basic) (bits : Z) :
  signed_width b = Some bits -> width bits.
Proof.
  destruct b; intros H; inversion H; subst; unfold width; try lia.
  apply IntSize_is_width.
Qed.

Lemma unsigned_width_bits (b : Basic) (bits : Z) :
  unsigned_width b = Some bits -> width bits.
Proof.
  destruct b; intros H; inversion H; subst; unfold width; try lia.
  apply IntSize_is_width.
Qed.

(** C6.  For an integer kind of [bits] bits without an [UnmarshalParam]
    method and a value in the range of the kind, converting the decimal
    string of the value ([strconv.FormatInt], [strconv.FormatUint])
    returns no error and stores that value. *)
Theorem decimal_round_trip (b : Basic) (bits x : Z) (field : Val) :
  (signed_width b = Some bits -> - 2 ^ (bits - 1) <= x < 2 ^ (bits - 1) ->
   setWithProperType (TBasic b None) (strconv.FormatInt x) field = (VInt x, None))
  /\ (unsigned_width b = Some bits -> 0 <= x < 2 ^ bits ->
      setWithProperType (TBasic b None) (strconv.FormatUint x) field = (VUint x, None)).
Proof.
  split; intros Hb Hx.
  - pose proof (signed_width_bits _ _ Hb) as Hw.
    assert (Hne : String.eqb (strconv.FormatInt x) "" = false).
    { unfold strconv.FormatInt. destruct (x <? 0); [reflexivity |].
      destruct (strconv_facts.formatBits_head 19 (strconv.uint64 x) "") as (d & s' & _ & ->);
        [apply Z.mod_pos_bound; reflexivity | reflexivity]. }
    destruct b; inversion Hb; subst bits;
      unfold_no_method; unfold setIntField; rewrite Hne;
      (rewrite (strconv_facts.ParseInt_FormatInt IntSize IntSize_width);
       [ cbn [SetInt]; rewrite wrap_int_small by (assumption || (unfold width; lia));
         reflexivity
       | unfold width; tauto
       | exact Hx ]).
  - pose proof (unsigned_width_bits _ _ Hb) as Hw.
    assert (Hne : String.eqb (strconv.FormatUint x) "" = false).
    { unfold strconv.FormatUint.
      destruct (strconv_facts.formatBits_head 19 x "") as (d & s' & _ & ->);
        [lia | reflexivity]. }
    destruct b; inversion Hb; subst bits;
      unfold_no_method; unfold setUintField; rewrite Hne; unfold strconv.FormatUint;
      (rewrite (strconv_facts.ParseUint_formatBits IntSize IntSize_width);
       [ cbn [SetUint]; rewrite wrap_uint_small by assumption; reflexivity
       | unfold width; tauto
       | exact Hx ]).
Qed.

(** ** Timestamps *)

Lemma bindField_resolved (recurse : type -> Val -> res (Val * option error))
  (data : Data) (tag : string) (typeField : StructField) (structField : Val)
  (inputValue : list string) :
  CanSet typeField = true -> nested typeField tag = false ->
  resolve data (inputFieldName typeField tag) = Some inputValue ->
  bindField recurse data tag typeField structField
  = assignField typeField structField inputValue.
Proof. intros Hset Hn Hr. unfold bindField. rewrite Hset, Hn, Hr. reflexivity. Qed.





(** ** The custom-unmarshal hook *)

(** Whatever error the method returns, the field is set to what the new
    receiver holds after the call. *)
Lemma unmarshalFieldNonPtr_method (value : string) (t : type) (field : Val) (um : Unmarshaler) :
  method t = Some um ->
  unmarshalFieldNonPtr value t field
  = (true, fst (um value (zero t)), snd (um value (zero t))).
Proof.
  intros H. unfold unmarshalFieldNonPtr, bindUnmarshaler. rewrite H.
  destruct (um value (zero t)). reflexivity.
Qed.

(** At a field whose type has the method, the walker stores what the new
    receiver holds after the call, and returns the error of the method if
    there is one. *)
Lemma assignField_method (typeField : StructField) (structField : Val)
  (v0 : string) (rest : list string) (b : Basic) (um : Unmarshaler) :
  Type_ typeField = TBasic b (Some um) ->
  assignField typeField structField (v0 :: rest)
  = Ret (fst (um v0 (zero (TBasic b (Some um)))),
         match snd (um v0 (zero (TBasic b (Some um)))) with
         | Some e => Return (Some e)
         | None => Continue
         end).
Proof.
  intros Ht. unfold assignField. rewrite Ht.
  change ((v0 :: rest) !! 0%nat) with (Some v0). cbv beta iota.
  cbn [unmarshalField].
  rewrite (unmarshalFieldNonPtr_method v0 (TBasic b (Some um)) structField um eq_refl).
  destruct (um v0 (zero (TBasic b (Some um)))) as [recv [e |]]; reflexivity.
Qed.

(** C1.  A field of a type whose [UnmarshalParam] fails on the token and
    leaves its receiver as it is: the error is returned by [bindData], and
    the field, 7 before the call, holds the zero value of the new receiver
    afterwards. *)
Theorem failed_unmarshal_overwrites_field :
  bindData (TStruct [mkField "Id" [("query", "id")] hooked_int] None)
           (VStruct [VInt 7]) [("id", ["x"])] "query"
  = Ret (VStruct [VInt 0], Some (foreignError "invalid")).
Proof. reflexivity. Qed.

(** ** Induction on types *)

Lemma type_ind_nested (P : type -> Prop)
  (HB : forall b um, P (TBasic b um))
  (HP : forall elem, P elem -> P (TPtr elem))
  (HS : forall elem um, P elem -> P (TSlice elem um))
  (HT : forall fields um, Forall (fun f => P (Type_ f)) fields -> P (TStruct fields um))
  (HTime : P TTime) :
  forall t, P t.
Proof.
  fix IH 1. intros [b um | elem | elem um | fields um |].
  - apply HB.
  - apply HP, IH.
  - apply HS, IH.
  - apply HT. induction fields as [| [n tg t] fs IHfs]; constructor.
    + apply IH.
    + exact IHfs.
  - exact HTime.
Qed.

(** ** Index accesses *)

Lemma map_index_In (data : Data) (key : string) (v : list string) :
  map_index data key = Some v -> In (key, v) data.
Proof.
  unfold map_index. destruct (find _ data) as [[k w] |] eqn:Hf; [| discriminate].
  apply find_some in Hf. destruct Hf as [Hin Heq]. cbn in *.
  apply String.eqb_eq in Heq. subst k. intros H. inversion H. subst. exact Hin.
Qed.

Lemma scan_In (data : Data) (name : string) (v : list string) :
  scan data name = Some v -> exists k, In (k, v) data /\ ToLower k = name.
Proof.
  induction data as [| [k w] data IH]; cbn [scan]; [discriminate |].
  destruct (String.eqb_spec (ToLower k) name) as [Heq | Hne].
  - intros H. inversion H. subst. exists k. split; [left; reflexivity | reflexivity].
  - intros H. destruct (IH H) as (k' & Hin & Hk). exists k'. split; [right; exact Hin | exact Hk].
Qed.

Lemma resolve_In (data : Data) (name : string) (v : list string) :
  resolve data name = Some v -> exists k, In (k, v) data.
Proof.
  unfold resolve. destruct (map_index data name) as [w |] eqn:Hl.
  - intros H. inversion H. subst. exists name. apply map_index_In, Hl.
  - intros H. destruct (scan_In _ _ _ H) as (k & Hin & _). exists k. exact Hin.
Qed.

Lemma fillSlice_in_bounds (sliceOf : type) (inputValue : list string) (n : nat) :
  forall (j : nat) (slice : list Val) (p : panic),
    (j + n <= length inputValue)%nat ->
    fillSlice sliceOf inputValue n j slice <> Panic p.
Proof.
  induction n as [| n IH]; intros j slice p Hlen; cbn [fillSlice]; [discriminate |].
  destruct (inputValue !! j) as [s |] eqn:Hj.
  - destruct (setWithProperType sliceOf s (nth j slice (zero sliceOf))) as [v [e |]].
    + discriminate.
    + apply IH. lia.
  - apply lookup_ge_None in Hj. lia.
Qed.

Lemma assignField_in_bounds (typeField : StructField) (structField : Val)
  (inputValue : list string) (p : panic) :
  inputValue <> [] -> assignField typeField structField inputValue <> Panic p.
Proof.
  intros Hne. destruct inputValue as [| v0 rest]; [congruence |].
  unfold assignField.
  change ((v0 :: rest) !! 0%nat) with (Some v0). cbv beta iota.
  destruct (unmarshalField (Type_ typeField) v0 structField) as [[ok sf] err].
  destruct ok; cbv beta iota zeta.
  - destruct err; discriminate.
  - destruct (is_Slice (Kind_of (Type_ typeField)) && (0 <? length (v0 :: rest))%nat).
    + destruct (fillSlice _ _ _ _ _) as [[sl [e |]] | q] eqn:Hf; try discriminate.
      exfalso. revert Hf. apply fillSlice_in_bounds. cbn. lia.
    + destruct (isTime (Type_ typeField)).
      * destruct (setTimeField v0 typeField sf). discriminate.
      * destruct (setWithProperType (Type_ typeField) v0 sf) as [v [e |]]; discriminate.
Qed.

Lemma bindField_in_bounds (recurse : type -> Val -> res (Val * option error))
  (data : Data) (tag : string) (typeField : StructField) (structField : Val) (i n : nat) :
  nonempty_values data ->
  (forall v, recurse (Type_ typeField) v <> Panic (IndexOutOfRange i n)) ->
  bindField recurse data tag typeField structField <> Panic (IndexOutOfRange i n).
Proof.
  intros Hdata Hrec. unfold bindField.
  destruct (negb (CanSet typeField)); [discriminate |].
  destruct (nested typeField tag).
  - specialize (Hrec structField).
    destruct (recurse (Type_ typeField) structField) as [[v [e |]] | p];
      try discriminate.
    intros H. apply Hrec. inversion H. reflexivity.
  - destruct (resolve data (inputFieldName typeField tag)) as [inputValue |] eqn:Hr;
      [| discriminate].
    apply assignField_in_bounds.
    destruct (resolve_In _ _ _ Hr) as (k & Hin). exact (Hdata _ _ Hin).
Qed.

Lemma bindFields_in_bounds (recurse : type -> Val -> res (Val * option error))
  (data : Data) (tag : string) (i n : nat) (fs : list StructField) :
  nonempty_values data ->
  Forall (fun f => forall v, recurse (Type_ f) v <> Panic (IndexOutOfRange i n)) fs ->
  forall (k : nat) (vs : list Val),
    bindFields recurse data tag fs k vs <> Panic (IndexOutOfRange i n).
Proof.
  intros Hdata Hfs. induction Hfs as [| f fs Hf _ IH]; intros k vs; cbn [bindFields].
  - discriminate.
  - destruct (vs !! k) as [sf |]; [| discriminate].
    pose proof (bindField_in_bounds recurse data tag f sf i n Hdata Hf) as Hb.
    destruct (bindField recurse data tag f sf) as [[v [| err]] | p].
    + apply IH.
    + discriminate.
    + intros H. apply Hb. inversion H. reflexivity.
Qed.

Lemma bindData_in_bounds (data : Data) (tag : string) (i n : nat) (typ : type) :
  nonempty_values data ->
  forall val : Val, bindData typ val data tag <> Panic (IndexOutOfRange i n).
Proof.
  intros Hdata.
  induction typ as [b um | elem _ | elem um _ | fields um IH |] using type_ind_nested;
    intros val; cbn [bindData]; try discriminate.
  apply bindFields_in_bounds; assumption.
Qed.

(** C10.  When every key of the source map has at least one value, no
    access [inputValue[0]] or [inputValue[j]] of [bindData] is out of
    range, whatever the type and the value bound; and a settable field that
    is looked up and whose resolved key has an empty list of values makes
    the access [inputValue[0]] of line 158 panic. *)
Theorem index_accesses_in_bounds :
  (forall (typ : type) (val : Val) (data : Data) (tag : string),
      nonempty_values data ->
      forall i n, bindData typ val data tag <> Panic (IndexOutOfRange i n))
  /\ (forall recurse (data : Data) (tag : string) (typeField : StructField)
             (structField : Val),
        CanSet typeField = true -> nested typeField tag = false ->
        resolve data (inputFieldName typeField tag) = Some [] ->
        bindField recurse data tag typeField structField = Panic (IndexOutOfRange 0 0)).
Proof.
  split.
  - intros typ val data tag Hdata i n. apply bindData_in_bounds. exact Hdata.
  - intros recurse data tag typeField structField Hset Hn Hr.
    rewrite (bindField_resolved _ _ _ _ _ _ Hset Hn Hr). reflexivity.
Qed.

(** ** Nested structs *)

Lemma bindField_nested (recurse : type -> Val -> res (Val * option error))
  (data : Data) (tag : string) (typeField : StructField) (structField : Val) :
  CanSet typeField = true -> nested typeField tag = true ->
  bindField recurse data tag typeField structField
  = match recurse (Type_ typeField) structField with
    | Panic p => Panic p
    | Ret (v, Some err) => Ret (v, Return (Some err))
    | Ret (v, None) => Ret (v, Continue)
    end.
Proof. intros Hset Hn. unfold bindField. rewrite Hset, Hn. reflexivity. Qed.


(** ** Resolution of the key *)

Lemma map_index_first (data pre post : Data) (key : string) (v : list string) :
  data = (pre ++ (key, v) :: post)%list -> ~ In key (map fst pre) ->
  map_index data key = Some v.
Proof.
  intros -> Hpre. unfold map_index.
  induction pre as [| [k w] pre IH]; cbn [app find fst].
  - rewrite String.eqb_refl. reflexivity.
  - destruct (String.eqb_spec k key) as [-> | Hne].
    + exfalso. apply Hpre. left. reflexivity.
    + apply IH. intros Hin. apply Hpre. right. exact Hin.
Qed.

Lemma map_index_absent (data : Data) (key : string) :
  ~ In key (map fst data) -> map_index data key = None.
Proof.
  intros Hno. unfold map_index.
  induction data as [| [k w] data IH]; cbn [find fst]; [reflexivity |].
  destruct (String.eqb_spec k key) as [-> | Hne].
  - exfalso. apply Hno. left. reflexivity.
  - apply IH. intros Hin. apply Hno. right. exact Hin.
Qed.

Lemma scan_first (data pre post : Data) (name k : string) (v : list string) :
  data = (pre ++ (k, v) :: post)%list -> ToLower k = name ->
  (forall k', In k' (map fst pre) -> ToLower k' <> name) ->
  scan data name = Some v.
Proof.
  intros -> Hk Hpre.
  induction pre as [| [k' w] pre IH]; cbn [app scan].
  - rewrite Hk, String.eqb_refl. reflexivity.
  - destruct (String.eqb_spec (ToLower k') name) as [Heq | Hne].
    + exfalso. apply (Hpre k'); [left; reflexivity | exact Heq].
    + apply IH. intros k'' Hin. apply Hpre. right. exact Hin.
Qed.

Lemma scan_absent (data : Data) (name : string) :
  (forall k, In k (map fst data) -> ToLower k <> name) -> scan data name = None.
Proof.
  intros Hno. induction data as [| [k w] data IH]; cbn [scan]; [reflexivity |].
  destruct (String.eqb_spec (ToLower k) name) as [Heq | Hne].
  - exfalso. apply (Hno k); [left; reflexivity | exact Heq].
  - apply IH. intros k' Hin. apply Hno. right. exact Hin.
Qed.

Lemma resolve_absent (data : Data) (key : string) :
  (forall k, In k (map fst data) -> ToLower k <> ToLower key) ->
  resolve data key = None.
Proof.
  intros Hno. unfold resolve. rewrite map_index_absent.
  - apply scan_absent, Hno.
  - intros Hin. apply (Hno key Hin). reflexivity.
Qed.

Lemma bindField_unresolved (recurse : type -> Val -> res (Val * option error))
  (data : Data) (tag : string) (typeField : StructField) (structField : Val) :
  recursed typeField tag = false ->
  resolve data (inputFieldName typeField tag) = None ->
  bindField recurse data tag typeField structField = Ret (structField, Continue).
Proof.
  unfold recursed, bindField. intros Hrec Hr.
  destruct (CanSet typeField); [| reflexivity].
  cbn in Hrec. rewrite Hrec. cbn. rewrite Hr. reflexivity.
Qed.

(** C4, as the code has it.  For a settable field that the walker does
    not go into as a nested struct: the key looked up is the tag of the
    binding mode, or the declared name when that tag is empty; when the map
    has this key, the field is set from its values; when it has not, the
    field is set from the values of the first entry, in the order of the
    iteration over the map, whose lower-cased key is the lower-cased lookup
    key; when there is no such entry either, the field is left and the loop
    goes on.  So the field [Name] of type string, without a tag, takes the
    first value of the key [name]. *)
Theorem field_resolution
  (recurse : type -> Val -> res (Val * option error)) (data : Data) (tag : string)
  (typeField : StructField) (structField : Val) :
  CanSet typeField = true -> nested typeField tag = false ->
  inputFieldName typeField tag
  = (if String.eqb (Tag_Get (Tag typeField) tag) "" then Name typeField
     else Tag_Get (Tag typeField) tag)
  /\ (forall pre v post,
        data = (pre ++ (inputFieldName typeField tag, v) :: post)%list ->
        ~ In (inputFieldName typeField tag) (map fst pre) ->
        bindField recurse data tag typeField structField
        = assignField typeField structField v)
  /\ (forall pre k v post,
        ~ In (inputFieldName typeField tag) (map fst data) ->
        data = (pre ++ (k, v) :: post)%list ->
        ToLower k = ToLower (inputFieldName typeField tag) ->
        (forall k', In k' (map fst pre) ->
                    ToLower k' <> ToLower (inputFieldName typeField tag)) ->
        bindField recurse data tag typeField structField
        = assignField typeField structField v)
  /\ ((forall k, In k (map fst data) ->
                 ToLower k <> ToLower (inputFieldName typeField tag)) ->
      bindField recurse data tag typeField structField = Ret (structField, Continue))
  /\ (forall v0 rest,
        Type_ typeField = TBasic String_ None ->
        assignField typeField structField (v0 :: rest) = Ret (VString v0, Continue))
  /\ bindData (TStruct [mkField "Name" [] (TBasic String_ None)] None)
              (VStruct [VString ""]) [("name", ["Jon"])] "query"
     = Ret (VStruct [VString "Jon"], None).
Proof.
  intros Hset Hn. split; [reflexivity |]. repeat split.
  - intros pre v post Hd Hpre. apply bindField_resolved; try assumption.
    unfold resolve. rewrite (map_index_first _ _ _ _ _ Hd Hpre). reflexivity.
  - intros pre k v post Hno Hd Hk Hpre. apply bindField_resolved; try assumption.
    unfold resolve. rewrite (map_index_absent _ _ Hno).
    exact (scan_first _ _ _ _ _ _ Hd Hk Hpre).
  - intros Hno. apply bindField_unresolved.
    + unfold recursed. rewrite Hn. apply andb_false_r.
    + apply resolve_absent, Hno.
  - intros v0 rest Ht. unfold assignField. rewrite Ht. reflexivity.
Qed.

(** ** Fields without a key *)

Lemma bindFields_frame (recurse : type -> Val -> res (Val * option error))
  (data : Data) (tag : string) (fs : list StructField) :
  forall (i : nat) (vs : list Val) (val' : Val) (err : option error),
    bindFields recurse data tag fs i vs = Ret (val', err) ->
    forall j : nat,
      (j < i)%nat
      \/ (exists f, fs !! (j - i)%nat = Some f /\ (i <= j)%nat
                    /\ recursed f tag = false
                    /\ resolve data (inputFieldName f tag) = None) ->
      Fields val' !! j = vs !! j.
Proof.
  induction fs as [| f0 fs IH]; intros i vs val' err Hrun j Hj; cbn [bindFields] in Hrun.
  - inversion Hrun. reflexivity.
  - destruct (vs !! i) as [sf |] eqn:Hi; [| discriminate].
    assert (Hlen : (i < length vs)%nat) by (eapply lookup_lt_Some; eassumption).
    destruct (Nat.eq_dec j i) as [-> | Hne].
    + destruct Hj as [Hlt | (f & Hf & _ & Hrec & Hres)]; [lia |].
      rewrite Nat.sub_diag in Hf. cbn in Hf. inversion Hf. subst f.
      rewrite (bindField_unresolved _ _ _ _ _ Hrec Hres) in Hrun.
      rewrite (IH _ _ _ _ Hrun i) by (left; lia).
      rewrite list_lookup_insert_eq by exact Hlen. symmetry. exact Hi.
    + destruct (bindField recurse data tag f0 sf) as [[v [| e]] | p]; [| | discriminate].
      * rewrite (IH _ _ _ _ Hrun j).
        -- apply list_lookup_insert_ne. lia.
        -- destruct Hj as [Hlt | (f & Hf & Hle & Hrec & Hres)]; [left; lia |].
           right. exists f. repeat split; try assumption; [| lia].
           replace (j - i)%nat with (S (j - S i)) in Hf by lia. exact Hf.
      * inversion Hrun. cbn [Fields]. apply list_lookup_insert_ne. lia.
Qed.

(** C8, as the code has it.  A field that the walker does not go into as
    a nested struct and for whose lookup key the map has no entry (exact or
    equal in lower case) holds, after [bindData] has returned, the value it
    had before; the loop goes on from it to the next field with nothing
    changed; in a struct of two fields [A] and [B] where [B] is such a
    field, [bindData] returns what the binding of [A] returns and leaves
    [B]. *)
Theorem unresolved_field_is_left (data : Data) (tag : string) :
  (forall fields um val val' err j typeField,
      bindData (TStruct fields um) val data tag = Ret (val', err) ->
      fields !! j = Some typeField ->
      recursed typeField tag = false ->
      resolve data (inputFieldName typeField tag) = None ->
      Fields val' !! j = Fields val !! j)
  /\ (forall recurse typeField fs i vs structField,
        vs !! i = Some structField ->
        recursed typeField tag = false ->
        resolve data (inputFieldName typeField tag) = None ->
        bindFields recurse data tag (typeField :: fs) i vs
        = bindFields recurse data tag fs (S i) vs)
  /\ (forall fA fB um a b,
        recursed fB tag = false ->
        resolve data (inputFieldName fB tag) = None ->
        bindData (TStruct [fA; fB] um) (VStruct [a; b]) data tag
        = match bindField (fun t v => bindData t v data tag) data tag fA a with
          | Panic p => Panic p
          | Ret (a', Continue) => Ret (VStruct [a'; b], None)
          | Ret (a', Return err) => Ret (VStruct [a'; b], err)
          end).
Proof.
  repeat split.
  - intros fields um val val' err j typeField Hrun Hf Hrec Hres. cbn [bindData] in Hrun.
    apply (bindFields_frame _ _ _ _ _ _ _ _ Hrun). right.
    exists typeField. rewrite Nat.sub_0_r. repeat split; try assumption. lia.
  - intros recurse typeField fs i vs structField Hi Hrec Hres. cbn [bindFields].
    rewrite Hi, (bindField_unresolved _ _ _ _ _ Hrec Hres).
    rewrite list_insert_id by exact Hi. reflexivity.
  - intros fA fB um a b Hrec Hres.
    set (rec := fun t v => bindData t v data tag).
    change (bindData (TStruct [fA; fB] um) (VStruct [a; b]) data tag)
      with (bindFields rec data tag [fA; fB] 0%nat [a; b]).
    cbn [bindFields]. change ([a; b] !! 0%nat) with (Some a). cbv beta iota.
    destruct (bindField rec data tag fA a) as [[a' [| e]] | p]; try reflexivity.
    change ((<[0%nat:=a']> [a; b]) !! 1%nat) with (Some b). cbv beta iota.
    rewrite (bindField_unresolved _ _ _ _ _ Hrec Hres). reflexivity.
Qed.

(** ** The walk returns *)

Lemma fillSlice_panic (sliceOf : type) (inputValue : list string) (n : nat) :
  forall (j : nat) (slice : list Val) (p : panic),
    fillSlice sliceOf inputValue n j slice = Panic p ->
    exists i len, p = IndexOutOfRange i len.
Proof.
  induction n as [| n IH]; intros j slice p; cbn [fillSlice]; [discriminate |].
  destruct (inputValue !! j) as [s |].
  - destruct (setWithProperType sliceOf s (nth j slice (zero sliceOf))) as [v [e |]].
    + discriminate.
    + apply IH.
  - intros H. inversion H. eauto.
Qed.

Lemma assignField_panic (typeField : StructField) (structField : Val)
  (inputValue : list string) (p : panic) :
  assignField typeField structField inputValue = Panic p ->
  exists i len, p = IndexOutOfRange i len.
Proof.
  unfold assignField. destruct (inputValue !! 0%nat) as [v0 |].
  - destruct (unmarshalField (Type_ typeField) v0 structField) as [[ok sf] err].
    destruct ok; cbv beta iota zeta.
    + destruct err; discriminate.
    + destruct (is_Slice (Kind_of (Type_ typeField)) && (0 <? length inputValue)%nat).
      * destruct (fillSlice _ _ _ _ _) as [[sl [e |]] | q] eqn:Hf; try discriminate.
        intros H. inversion H. subst q. exact (fillSlice_panic _ _ _ _ _ _ Hf).
      * destruct (isTime (Type_ typeField)).
        -- destruct (setTimeField v0 typeField sf). discriminate.
        -- destruct (setWithProperType (Type_ typeField) v0 sf) as [v [e |]]; discriminate.
  - intros H. inversion H. eauto.
Qed.

Lemma bindField_no_field_panic (recurse : type -> Val -> res (Val * option error))
  (data : Data) (tag : string) (typeField : StructField) (structField : Val) (j : nat) :
  recurse (Type_ typeField) structField <> Panic (ReflectFieldIndex j) ->
  bindField recurse data tag typeField structField <> Panic (ReflectFieldIndex j).
Proof.
  intros Hrec. unfold bindField.
  destruct (negb (CanSet typeField)); [discriminate |].
  destruct (nested typeField tag).
  - destruct (recurse (Type_ typeField) structField) as [[v [e |]] | p];
      try discriminate.
    intros H. apply Hrec. inversion H. reflexivity.
  - destruct (resolve data (inputFieldName typeField tag)) as [inputValue |];
      [| discriminate].
    intros H. destruct (assignField_panic _ _ _ _ H) as (i & len & Hp). discriminate Hp.
Qed.

Lemma bindFields_no_field_panic (recurse : type -> Val -> res (Val * option error))
  (data : Data) (tag : string) (j : nat) (fs : list StructField) :
  Forall (fun f => forall v, shaped (Type_ f) v ->
                             recurse (Type_ f) v <> Panic (ReflectFieldIndex j)) fs ->
  forall (i : nat) (vs : list Val),
    Forall2 (fun f v => shaped (Type_ f) v) fs (drop i vs) ->
    bindFields recurse data tag fs i vs <> Panic (ReflectFieldIndex j).
Proof.
  intros Hfs. induction Hfs as [| f fs Hf _ IH]; intros i vs Hvs; cbn [bindFields].
  - discriminate.
  - inversion Hvs as [| f' x fs' rest Hx Hrest Heq1 Heq2]. subst f' fs'.
    assert (Hi : vs !! i = Some x).
    { rewrite <- (Nat.add_0_r i), <- lookup_drop, <- Heq2. reflexivity. }
    rewrite Hi.
    pose proof (bindField_no_field_panic recurse data tag f x j (Hf x Hx)) as Hb.
    assert (Hdrop : forall v, drop (S i) (<[i:=v]> vs) = rest).
    { intros v. rewrite drop_insert_lt by lia.
      rewrite (drop_S _ _ _ Hi) in Heq2. inversion Heq2. reflexivity. }
    destruct (bindField recurse data tag f x) as [[v [| err]] | p].
    + apply IH. rewrite Hdrop. exact Hrest.
    + discriminate.
    + intros H. apply Hb. inversion H. reflexivity.
Qed.

Lemma bindData_no_field_panic (data : Data) (tag : string) (j : nat) (typ : type) :
  forall val : Val, shaped typ val -> bindData typ val data tag <> Panic (ReflectFieldIndex j).
Proof.
  induction typ as [b um | elem _ | elem um _ | fields um IH |] using type_ind_nested;
    intros val Hval; cbn [bindData]; try discriminate.
  inversion Hval as [fields' um' vs Hvs | t v Hne]; subst.
  - apply bindFields_no_field_panic; [exact IH | exact Hvs].
  - exfalso. exact (Hne fields um eq_refl).
Qed.

(** On a target that has the fields of its type and a map whose keys all
    have a value, [bindData] returns. *)
Lemma bindData_returns (typ : type) (val : Val) (data : Data) (tag : string) :
  shaped typ val -> nonempty_values data ->
  exists val' err, bindData typ val data tag = Ret (val', err).
Proof.
  intros Hval Hdata.
  destruct (bindData typ val data tag) as [[val' err] | [i n | j]] eqn:Hrun.
  - exists val', err. reflexivity.
  - exfalso. exact (bindData_in_bounds data tag i n typ Hdata val Hrun).
  - exfalso. exact (bindData_no_field_panic data tag j typ val Hval Hrun).
Qed.

(** ** The walker on examples *)

(** A field of type [[]int64] takes the values of its key in their order. *)
Example bind_slice :
  bindData (TStruct [mkField "Ids" [("query", "id")] (TSlice (TBasic Int64 None) None)] None)
           (VStruct [VSlice []]) [("id", ["1"; "2"; "3"])] "query"
  = Ret (VStruct [VSlice [VInt 1; VInt 2; VInt 3]], None).
Proof. reflexivity. Qed.

(** A nil pointer field is allocated and set. *)
Example bind_pointer :
  bindData (TStruct [mkField "N" [] (TPtr (TBasic Int32 None))] None)
           (VStruct [VPtr None]) [("n", ["-5"])] "form"
  = Ret (VStruct [VPtr (Some (VInt (-5)))], None).
Proof. reflexivity. Qed.

(** The first error ends the walk: the fields before it keep what was
    bound, the fields after it are not reached. *)
Example bind_first_error :
  bindData (TStruct [mkField "A" [] (TBasic Int8 None);
                     mkField "B" [] (TBasic Int8 None);
                     mkField "C" [] (TBasic Int8 None)] None)
           (VStruct [VInt 0; VInt 0; VInt 0])
           [("A", ["1"]); ("B", ["300"]); ("C", ["3"])] "form"
  = Ret (VStruct [VInt 1; VInt 0; VInt 0], Some (NumError "ParseInt" "300" ErrRange)).
Proof. reflexivity. Qed.

(** The target of [bindData] must be a struct. *)
Example bind_not_a_struct :
  bindData (TBasic Int None) (VInt 0) [("a", ["1"])] "query"
  = Ret (VInt 0, Some (errorString "binding element must be a struct")).
Proof. reflexivity. Qed.

End BinderFacts.

(** * Further facts on the parsers of strconv *)

Module strconv_range.
Import strconv.

Lemma ParseUint_loop_range (maxVal : Z) (s : string) :
  forall n0 n : Z, 0 <= n0 <= maxVal ->
    ParseUint_loop maxVal s n0 = (n, None) -> 0 <= n <= maxVal.
Proof.
  induction s as [| c s IH]; intros n0 n Hn0; cbn [ParseUint_loop].
  - intros H. inversion H. subst. exact Hn0.
  - destruct (digit_of (byte_of c)) as [d |]; [| discriminate].
    destruct (10 <=? d); [discriminate |].
    destruct (cutoff10 <=? n0); [discriminate |].
    destruct (Z.ltb_spec (uint64 (uint64 (n0 * 10) + d)) (uint64 (n0 * 10)));
      [discriminate |].
    destruct (Z.ltb_spec maxVal (uint64 (uint64 (n0 * 10) + d))); [discriminate |].
    cbn [orb]. apply IH. split; [| assumption].
    unfold uint64. apply Z.mod_pos_bound. reflexivity.
Qed.

Lemma ParseUint_loop_ErrRange (maxVal : Z) (s : string) :
  forall n0 n : Z, ParseUint_loop maxVal s n0 = (n, Some ErrRange) -> n = maxVal.
Proof.
  induction s as [| c s IH]; intros n0 n; cbn [ParseUint_loop]; [discriminate |].
  destruct (digit_of (byte_of c)) as [d |]; [| discriminate].
  destruct (10 <=? d); [discriminate |].
  destruct (cutoff10 <=? n0); [intros H; inversion H; reflexivity |].
  destruct ((uint64 (uint64 (n0 * 10) + d) <? uint64 (n0 * 10))
            || (maxVal <? uint64 (uint64 (n0 * 10) + d))).
  - intros H. inversion H. reflexivity.
  - apply IH.
Qed.

Lemma ParseUint_loop_digits (maxVal : Z) (s : string) :
  forall n0 n : Z, ParseUint_loop maxVal s n0 = (n, None) -> all_digits s = true.
Proof.
  induction s as [| c s IH]; intros n0 n; cbn [ParseUint_loop all_digits]; [reflexivity |].
  unfold digit_of, is_digit.
  destruct ((48 <=? byte_of c) && (byte_of c <=? 57)) eqn:Hd.
  - destruct (10 <=? byte_of c - 48); [discriminate |].
    destruct (cutoff10 <=? n0); [discriminate |].
    destruct (_ || _); [discriminate |]. intros H. rewrite (IH _ _ H). reflexivity.
  - destruct ((97 <=? lower (byte_of c)) && (lower (byte_of c) <=? 122)) eqn:Hl;
      [| discriminate].
    apply andb_prop in Hl. destruct Hl as [Hl _]. apply Z.leb_le in Hl.
    destruct (Z.leb_spec 10 (lower (byte_of c) - 97 + 10)); [discriminate | lia].
Qed.

Lemma is_digit_range (c : ascii) :
  is_digit c = true -> digit_of (byte_of c) = Some (byte_of c - 48)
                       /\ 0 <= byte_of c - 48 < 10.
Proof.
  unfold is_digit, digit_of. intros H. rewrite H. split; [reflexivity |].
  apply andb_prop in H. destruct H as [H1 H2].
  apply Z.leb_le in H1. apply Z.leb_le in H2. lia.
Qed.

Lemma digits_value_mono (s : string) :
  forall acc : Z, 0 <= acc -> all_digits s = true ->
    acc <= digits_value s acc /\ acc * 10 ^ Z.of_nat (String.length s) <= digits_value s acc.
Proof.
  induction s as [| c s IH]; intros acc Hacc; cbn [all_digits digits_value String.length].
  - intros _. cbn. lia.
  - intros H. apply andb_prop in H. destruct H as [Hc Hs].
    destruct (is_digit_range c Hc) as [_ Hd].
    destruct (IH (acc * 10 + (byte_of c - 48)) ltac:(lia) Hs) as [IH1 IH2].
    rewrite Nat2Z.inj_succ, Z.pow_succ_r by lia.
    assert (0 < 10 ^ Z.of_nat (String.length s)) by (apply Z.pow_pos_nonneg; lia).
    split; nia.
Qed.

(** On digits the loop of [ParseUint] returns the number they stand for
    when it is at most [maxVal], and the range error otherwise. *)
Lemma ParseUint_loop_value (maxVal : Z) (s : string) :
  maxVal <= maxUint64 ->
  forall n0 : Z, all_digits s = true -> 0 <= n0 <= maxVal ->
    ParseUint_loop maxVal s n0
    = if digits_value s n0 <=? maxVal then (digits_value s n0, None)
      else (maxVal, Some ErrRange).
Proof.
  intros Hmax. unfold maxUint64 in Hmax.
  induction s as [| c s IH]; intros n0 Hs Hn0; cbn [ParseUint_loop digits_value].
  - destruct (Z.leb_spec n0 maxVal); [reflexivity | lia].
  - cbn [all_digits] in Hs. apply andb_prop in Hs. destruct Hs as [Hc Hs].
    destruct (is_digit_range c Hc) as [-> Hd].
    destruct (Z.leb_spec 10 (byte_of c - 48)); [lia |].
    pose proof (proj1 (digits_value_mono s (n0 * 10 + (byte_of c - 48)) ltac:(lia) Hs))
      as Hmono.
    unfold cutoff10, maxUint64. change ((2 ^ 64 - 1) / 10 + 1) with 1844674407370955162.
    destruct (Z.leb_spec 1844674407370955162 n0) as [Hcut | Hcut].
    { destruct (Z.leb_spec (digits_value s (n0 * 10 + (byte_of c - 48))) maxVal);
        [lia | reflexivity]. }
    unfold uint64. rewrite (Z.mod_small (n0 * 10)) by lia.
    destruct (Z.lt_ge_cases (n0 * 10 + (byte_of c - 48)) (2 ^ 64)) as [Hfit | Hover].
    + rewrite (Z.mod_small (n0 * 10 + (byte_of c - 48))) by lia.
      destruct (Z.ltb_spec (n0 * 10 + (byte_of c - 48)) (n0 * 10)); [lia |].
      cbn [orb].
      destruct (Z.ltb_spec maxVal (n0 * 10 + (byte_of c - 48))).
      * destruct (Z.leb_spec (digits_value s (n0 * 10 + (byte_of c - 48))) maxVal);
          [lia | reflexivity].
      * apply IH; [exact Hs | lia].
    + assert (Hmod : (n0 * 10 + (byte_of c - 48)) mod 2 ^ 64
                     = n0 * 10 + (byte_of c - 48) - 2 ^ 64).
      { symmetry. apply Z.mod_unique with (q := 1); lia. }
      rewrite Hmod.
      destruct (Z.ltb_spec (n0 * 10 + (byte_of c - 48) - 2 ^ 64) (n0 * 10)); [| lia].
      cbn [orb].
      destruct (Z.leb_spec (digits_value s (n0 * 10 + (byte_of c - 48))) maxVal);
        [lia | reflexivity].
Qed.

Section Range.

Variable IntSize : Z.
Hypothesis IntSize_word : IntSize = 32 \/ IntSize = 64.

Lemma bits_of_width (bitSize : Z) :
  bitSize = 0 \/ width bitSize -> width (bits_of IntSize bitSize).
Proof.
  intros Hbs. unfold bits_of. destruct Hbs as [-> | Hw].
  - cbn. unfold width. lia.
  - destruct (Z.eqb_spec bitSize 0); [width_cases Hw; lia | exact Hw].
Qed.

Lemma maxVal_of (bitSize : Z) :
  bitSize = 0 \/ width bitSize ->
  uint64 (uint64 (2 ^ bits_of IntSize bitSize) - 1) = 2 ^ bits_of IntSize bitSize - 1.
Proof.
  intros Hbs. pose proof (bits_of_width bitSize Hbs) as Hw.
  width_cases Hw; reflexivity.
Qed.

Lemma ParseUint_cases (s : string) (bitSize u : Z) (err : option error) :
  bitSize = 0 \/ width bitSize ->
  ParseUint IntSize s bitSize = (u, err) ->
  match err with
  | None => 0 <= u < 2 ^ bits_of IntSize bitSize /\ decimal s = true
  | Some (NumError _ _ ErrRange) => u = 2 ^ bits_of IntSize bitSize - 1
  | Some _ => True
  end.
Proof.
  intros Hbs. unfold ParseUint, decimal.
  destruct (String.eqb s ""); [intros H; inversion H; exact I |].
  assert (Hb : 0 <= bitSize <= 64) by (destruct Hbs as [-> | Hw]; [lia | width_cases Hw; lia]).
  destruct (Z.ltb_spec bitSize 0); [lia |].
  destruct (Z.ltb_spec 64 bitSize); [lia |].
  cbn [orb negb andb]. fold (bits_of IntSize bitSize). rewrite (maxVal_of bitSize Hbs).
  pose proof (bits_of_width bitSize Hbs) as Hw.
  assert (Hpos : 0 <= 2 ^ bits_of IntSize bitSize - 1) by (width_cases Hw; lia).
  destruct (ParseUint_loop _ s 0) as [n [e |]] eqn:Hloop; intros Hrun; inversion Hrun; subst.
  - destruct e; try exact I. exact (ParseUint_loop_ErrRange _ _ _ _ Hloop).
  - split.
    + pose proof (ParseUint_loop_range (2 ^ bits_of IntSize bitSize - 1) s 0 u
                    ltac:(lia) Hloop). lia.
    + exact (ParseUint_loop_digits _ _ _ _ Hloop).
Qed.

Lemma sign_cases (s : string) :
  match s with
  | String "+"%char s' => (false, s')
  | String "-"%char s' => (true, s')
  | _ => (false, s)
  end
  = match s with
    | EmptyString => (false, s)
    | String c s' =>
        if Ascii.eqb c "+" then (false, s')
        else if Ascii.eqb c "-" then (true, s') else (false, s)
    end.
Proof.
  destruct s as [| [[] [] [] [] [] [] [] []] s']; reflexivity.
Qed.

Lemma ParseInt_success (s : string) (bitSize i : Z) :
  bitSize = 0 \/ width bitSize ->
  ParseInt IntSize s bitSize = (i, None) ->
  - 2 ^ (bits_of IntSize bitSize - 1) <= i < 2 ^ (bits_of IntSize bitSize - 1)
  /\ signed_decimal s = true.
Proof.
  intros Hbs. unfold ParseInt, signed_decimal. rewrite sign_cases.
  destruct s as [| c s']; [discriminate |]. cbn [String.eqb].
  pose proof (bits_of_width bitSize Hbs) as Hw.
  assert (Hpow : 2 ^ bits_of IntSize bitSize = 2 * 2 ^ (bits_of IntSize bitSize - 1)
                 /\ 1 < 2 ^ (bits_of IntSize bitSize - 1) <= 2 ^ 63).
  { width_cases Hw; split; (reflexivity || lia). }
  destruct Hpow as [Hdouble Hhalf].
  assert (Hcut : uint64 (2 ^ (bits_of IntSize bitSize - 1)) = 2 ^ (bits_of IntSize bitSize - 1)).
  { unfold uint64. apply Z.mod_small. change (2 ^ 64) with (2 * 2 ^ 63). lia. }
  assert (Hgo : forall (neg : bool) (t : string),
             (let '(un, err) := ParseUint IntSize t bitSize in
              let range_or_nil :=
                match err with
                | None => true
                | Some (NumError _ _ ErrRange) => true
                | Some _ => false
                end in
              if negb range_or_nil
              then match err with
                   | Some (NumError _ _ e) => (0, Some (NumError "ParseInt" (String c s') e))
                   | _ => (0, err)
                   end
              else
                let bitSize := if bitSize =? 0 then IntSize else bitSize in
                let cutoff := uint64 (2 ^ (bitSize - 1)) in
                if negb neg && (cutoff <=? un)
                then (int64 (cutoff - 1), Some (rangeError "ParseInt" (String c s')))
                else if neg && (cutoff <? un)
                     then (int64 (- int64 cutoff), Some (rangeError "ParseInt" (String c s')))
                     else let n := int64 un in
                          let n := if neg then int64 (- n) else n in (n, None))
             = (i, None) ->
             - 2 ^ (bits_of IntSize bitSize - 1) <= i < 2 ^ (bits_of IntSize bitSize - 1)
             /\ decimal t = true).
  { intros neg t.
    destruct (ParseUint IntSize t bitSize) as [un err] eqn:HP.
    pose proof (ParseUint_cases t bitSize un err Hbs HP) as Hc.
    cbv beta iota zeta. fold (bits_of IntSize bitSize). rewrite Hcut.
    unfold int64. change (2 ^ 64) with (2 * 2 ^ 63).
    destruct err as [[f nm [| | bs] | msg | msg] |]; cbn [negb]; try discriminate.
    - subst un.
      destruct neg; cbn [negb andb].
      + destruct (Z.ltb_spec (2 ^ (bits_of IntSize bitSize - 1))
                    (2 ^ bits_of IntSize bitSize - 1)); [discriminate | lia].
      + destruct (Z.leb_spec (2 ^ (bits_of IntSize bitSize - 1))
                    (2 ^ bits_of IntSize bitSize - 1)); [discriminate | lia].
    - destruct Hc as [Hu Hdec].
      destruct neg; cbn [negb andb].
      + destruct (Z.ltb_spec (2 ^ (bits_of IntSize bitSize - 1)) un); [discriminate |].
        intros Hrun. inversion Hrun as [Hi]. split; [| exact Hdec].
        destruct (Z.eq_dec un (2 ^ 63)) as [-> | Hne].
        * assert (Hb63 : 2 ^ (bits_of IntSize bitSize - 1) = 2 ^ 63) by lia.
          rewrite Hb63. vm_compute. split; congruence.
        * rewrite (Z.mod_small (un + 2 ^ 63)) by lia.
          replace (- (un + 2 ^ 63 - 2 ^ 63) + 2 ^ 63) with (2 ^ 63 - un) by lia.
          destruct (Z.eq_dec un 0) as [-> | Hnz].
          -- change ((2 ^ 63 - 0) mod (2 * 2 ^ 63) - 2 ^ 63) with 0. lia.
          -- rewrite Z.mod_small by lia. lia.
      + destruct (Z.leb_spec (2 ^ (bits_of IntSize bitSize - 1)) un); [discriminate |].
        intros Hrun. inversion Hrun as [Hi]. split; [| exact Hdec].
        rewrite Z.mod_small by lia. lia. }
  destruct (Ascii.eqb c "+") eqn:Hplus; [cbn [orb]; apply Hgo |].
  destruct (Ascii.eqb c "-") eqn:Hminus; cbn [orb]; apply Hgo.
Qed.

Lemma int64_small (z : Z) : - 2 ^ 63 <= z < 2 ^ 63 -> int64 z = z.
Proof.
  intros Hz. unfold int64. change (2 ^ 64) with (2 * 2 ^ 63).
  rewrite Z.mod_small by lia. lia.
Qed.

Lemma int64_opp_int64 (z : Z) : 0 <= z <= 2 ^ 63 -> int64 (- int64 z) = - z.
Proof.
  intros Hz. destruct (Z.eq_dec z (2 ^ 63)) as [-> | Hne]; [reflexivity |].
  rewrite (int64_small z) by lia. apply int64_small. lia.
Qed.

(** [ParseUint] on a decimal numeral: its number when it fits [bitSize]
    bits, the range error with the largest such number otherwise. *)
Lemma ParseUint_value (s : string) (bitSize : Z) :
  bitSize = 0 \/ width bitSize -> decimal s = true ->
  ParseUint IntSize s bitSize
  = if decimal_value s <? 2 ^ bits_of IntSize bitSize then (decimal_value s, None)
    else (2 ^ bits_of IntSize bitSize - 1, Some (rangeError "ParseUint" s)).
Proof.
  intros Hbs Hd. unfold decimal in Hd. apply andb_prop in Hd. destruct Hd as [Hne Hs].
  unfold ParseUint. destruct (String.eqb s ""); [discriminate |].
  assert (Hb : 0 <= bitSize <= 64) by (destruct Hbs as [-> | Hw]; [lia | width_cases Hw; lia]).
  destruct (Z.ltb_spec bitSize 0); [lia |].
  destruct (Z.ltb_spec 64 bitSize); [lia |].
  cbn [orb]. fold (bits_of IntSize bitSize). rewrite (maxVal_of bitSize Hbs).
  pose proof (bits_of_width bitSize Hbs) as Hw.
  assert (Hpos : 0 <= 2 ^ bits_of IntSize bitSize - 1 <= maxUint64)
    by (unfold maxUint64; width_cases Hw; lia).
  rewrite (ParseUint_loop_value _ s (proj2 Hpos) 0 Hs ltac:(lia)).
  unfold decimal_value.
  destruct (Z.leb_spec (digits_value s 0) (2 ^ bits_of IntSize bitSize - 1));
    destruct (Z.ltb_spec (digits_value s 0) (2 ^ bits_of IntSize bitSize));
    (reflexivity || lia).
Qed.

(** [ParseInt] on a decimal numeral with an optional sign: its number when
    it fits [bitSize] bits, the range error with the nearest such number
    otherwise. *)
Lemma ParseInt_value (s : string) (bitSize : Z) :
  bitSize = 0 \/ width bitSize -> signed_decimal s = true ->
  ParseInt IntSize s bitSize
  = if (- 2 ^ (bits_of IntSize bitSize - 1) <=? signed_value s)
       && (signed_value s <? 2 ^ (bits_of IntSize bitSize - 1))
    then (signed_value s, None)
    else (if signed_value s <? 0 then - 2 ^ (bits_of IntSize bitSize - 1)
          else 2 ^ (bits_of IntSize bitSize - 1) - 1,
          Some (rangeError "ParseInt" s)).
Proof.
  intros Hbs. unfold ParseInt, signed_decimal, signed_value. rewrite sign_cases.
  destruct s as [| c s']; [discriminate |]. cbn [String.eqb].
  pose proof (bits_of_width bitSize Hbs) as Hw.
  assert (Hpow : 2 ^ bits_of IntSize bitSize = 2 * 2 ^ (bits_of IntSize bitSize - 1)
                 /\ 1 < 2 ^ (bits_of IntSize bitSize - 1) <= 2 ^ 63).
  { width_cases Hw; split; (reflexivity || lia). }
  destruct Hpow as [Hdouble Hhalf].
  assert (Hcut : uint64 (2 ^ (bits_of IntSize bitSize - 1)) = 2 ^ (bits_of IntSize bitSize - 1)).
  { unfold uint64. apply Z.mod_small. change (2 ^ 64) with (2 * 2 ^ 63). lia. }
  assert (Hgo : forall (neg : bool) (t : string), decimal t = true ->
             (let '(un, err) := ParseUint IntSize t bitSize in
              let range_or_nil :=
                match err with
                | None => true
                | Some (NumError _ _ ErrRange) => true
                | Some _ => false
                end in
              if negb range_or_nil
              then match err with
                   | Some (NumError _ _ e) => (0, Some (NumError "ParseInt" (String c s') e))
                   | _ => (0, err)
                   end
              else
                let bitSize := if bitSize =? 0 then IntSize else bitSize in
                let cutoff := uint64 (2 ^ (bitSize - 1)) in
                if negb neg && (cutoff <=? un)
                then (int64 (cutoff - 1), Some (rangeError "ParseInt" (String c s')))
                else if neg && (cutoff <? un)
                     then (int64 (- int64 cutoff), Some (rangeError "ParseInt" (String c s')))
                     else let n := int64 un in
                          let n := if neg then int64 (- n) else n in (n, None))
             = let v := if neg then - decimal_value t else decimal_value t in
               if (- 2 ^ (bits_of IntSize bitSize - 1) <=? v)
                  && (v <? 2 ^ (bits_of IntSize bitSize - 1))
               then (v, None)
               else (if v <? 0 then - 2 ^ (bits_of IntSize bitSize - 1)
                     else 2 ^ (bits_of IntSize bitSize - 1) - 1,
                     Some (rangeError "ParseInt" (String c s')))).
  { intros neg t Ht. rewrite (ParseUint_value t bitSize Hbs Ht).
    assert (Hdv : 0 <= decimal_value t).
    { unfold decimal in Ht. apply andb_prop in Ht.
      apply (proj1 (digits_value_mono t 0 ltac:(lia) (proj2 Ht))). }
    set (dv := decimal_value t) in *.
    set (C := 2 ^ (bits_of IntSize bitSize - 1)) in *.
    rewrite Hdouble.
    destruct (Z.ltb_spec dv (2 * C)) as [Hfit | Hover];
      cbv beta iota zeta; cbn [negb]; fold (bits_of IntSize bitSize); fold C; rewrite Hcut.
    - destruct neg; cbn [negb andb].
      + destruct (Z.ltb_spec C dv).
        * rewrite (int64_opp_int64 C) by lia.
          destruct (Z.leb_spec (- C) (- dv)); [lia |]. cbn [andb].
          destruct (Z.ltb_spec (- dv) 0); [reflexivity | lia].
        * rewrite (int64_opp_int64 dv) by lia.
          destruct (Z.leb_spec (- C) (- dv)); [| lia].
          destruct (Z.ltb_spec (- dv) C); [reflexivity | lia].
      + destruct (Z.leb_spec C dv).
        * rewrite (int64_small (C - 1)) by lia.
          destruct (Z.leb_spec (- C) dv); [| lia].
          destruct (Z.ltb_spec dv C); [lia |]. cbn [andb].
          destruct (Z.ltb_spec dv 0); [lia | reflexivity].
        * rewrite (int64_small dv) by lia.
          destruct (Z.leb_spec (- C) dv); [| lia].
          destruct (Z.ltb_spec dv C); [reflexivity | lia].
    - unfold rangeError at 1. cbn [negb].
      destruct neg; cbn [negb andb].
      + destruct (Z.ltb_spec C (2 * C - 1)); [| lia].
        rewrite (int64_opp_int64 C) by lia.
        destruct (Z.leb_spec (- C) (- dv)); [lia |]. cbn [andb].
        destruct (Z.ltb_spec (- dv) 0); [reflexivity | lia].
      + destruct (Z.leb_spec C (2 * C - 1)); [| lia].
        rewrite (int64_small (C - 1)) by lia.
        destruct (Z.leb_spec (- C) dv); [| lia].
        destruct (Z.ltb_spec dv C); [lia |]. cbn [andb].
        destruct (Z.ltb_spec dv 0); [lia | reflexivity]. }
  destruct (Ascii.eqb c "+") eqn:Hplus; [cbn [orb]; apply Hgo |].
  destruct (Ascii.eqb c "-") eqn:Hminus; cbn [orb]; apply Hgo.
Qed.

End Range.
End strconv_range.

(** * Further facts on the binder *)

Section WalkerFacts.

Context `{RT : Runtime}.

(** ** Slices *)

Lemma fillSlice_all (sliceOf : type) (irest : list string) :
  forall (ipre : list string) (done : list Val),
    length done = length ipre ->
    Forall (fun s => snd (setWithProperType sliceOf s (zero sliceOf)) = None) irest ->
    fillSlice sliceOf (ipre ++ irest)%list (length irest) (length ipre)
      (done ++ repeat (zero sliceOf) (length irest))%list
    = Ret ((done ++ map (fun s => fst (setWithProperType sliceOf s (zero sliceOf))) irest)%list,
           None).
Proof.
  induction irest as [| s irest IH]; intros ipre done Hlen Hok; cbn [length fillSlice].
  - cbn. reflexivity.
  - inversion Hok as [| s' l' Hs Hrest]; subst.
    rewrite lookup_app_r by lia. rewrite Nat.sub_diag. cbn [lookup list_lookup].
    change ((s :: irest) !! 0%nat) with (Some s). cbv beta iota.
    cbn [repeat]. rewrite <- Hlen at 1. rewrite nth_middle.
    destruct (setWithProperType sliceOf s (zero sliceOf)) as [v err] eqn:Hconv.
    cbn in Hs. subst err.
    rewrite <- Hlen.
    rewrite insert_app_r_alt by lia. rewrite Nat.sub_diag. cbn [insert list_insert].
    specialize (IH (ipre ++ [s])%list (done ++ [v])%list).
    rewrite !length_app in IH. cbn [length] in IH.
    rewrite <- !app_assoc in IH. cbn [app] in IH.
    replace (S (length done)) with (length done + 1)%nat by lia.
    rewrite Hlen at 1. rewrite IH by (lia || assumption).
    cbn [map]. rewrite Hconv. reflexivity.
Qed.

Lemma nth_after (done : list Val) (z : Val) (r : list Val) (n : nat) :
  length done = n -> nth n (done ++ z :: r)%list z = z.
Proof. intros <-. apply nth_middle. Qed.

Lemma insert_after (done : list Val) (z v : Val) (r : list Val) (n : nat) :
  length done = n -> <[n:=v]> (done ++ z :: r)%list = (done ++ v :: r)%list.
Proof.
  intros <-. rewrite insert_app_r_alt by lia. rewrite Nat.sub_diag. reflexivity.
Qed.

Lemma fillSlice_fails (sliceOf : type) (s : string) (ipost : list string) (e : error)
  (iok : list string) :
  snd (setWithProperType sliceOf s (zero sliceOf)) = Some e ->
  forall (ipre : list string) (done : list Val),
    length done = length ipre ->
    Forall (fun s => snd (setWithProperType sliceOf s (zero sliceOf)) = None) iok ->
    exists slice,
      fillSlice sliceOf (ipre ++ iok ++ s :: ipost)%list (length (iok ++ s :: ipost)%list)
        (length ipre) (done ++ repeat (zero sliceOf) (length (iok ++ s :: ipost)%list))%list
      = Ret (slice, Some e).
Proof.
  intros Hs. induction iok as [| s0 iok IH]; intros ipre done Hlen Hok;
    cbn [app length fillSlice].
  - rewrite lookup_app_r by lia. rewrite Nat.sub_diag.
    change ((s :: ipost) !! 0%nat) with (Some s). cbv beta iota.
    cbn [repeat]. rewrite (nth_after _ _ _ _ Hlen).
    destruct (setWithProperType sliceOf s (zero sliceOf)) as [v err]. cbn in Hs. subst err.
    eexists. reflexivity.
  - inversion Hok as [| s' l' Hs0 Hrest]; subst.
    rewrite lookup_app_r by lia. rewrite Nat.sub_diag.
    change ((s0 :: iok ++ s :: ipost)%list !! 0%nat) with (Some s0). cbv beta iota.
    cbn [repeat]. rewrite (nth_after _ _ _ _ Hlen).
    destruct (setWithProperType sliceOf s0 (zero sliceOf)) as [v err]. cbn in Hs0. subst err.
    rewrite (insert_after _ _ _ _ _ Hlen).
    specialize (IH (ipre ++ [s0])%list (done ++ [v])%list).
    rewrite (length_app ipre [s0]), (length_app done [v]) in IH.
    cbn [length] in IH. rewrite !Nat.add_1_r in IH.
    rewrite <- !app_assoc in IH. cbn [app] in IH.
    apply IH; [lia | assumption].
Qed.

(** X1.  A settable slice field without an [UnmarshalParam] whose key
    resolves to values that all convert takes a new slice with one element
    per value, in the order of the values; what the field held is dropped. *)
Theorem slice_field_takes_all_values (typeField : StructField) (structField : Val)
  (elem : type) (inputValue : list string) :
  Type_ typeField = TSlice elem None ->
  inputValue <> [] ->
  Forall (fun s => snd (setWithProperType elem s (zero elem)) = None) inputValue ->
  assignField typeField structField inputValue
  = Ret (VSlice (map (fun s => fst (setWithProperType elem s (zero elem))) inputValue),
         Continue).
Proof.
  intros Ht Hne Hok. unfold assignField. rewrite Ht.
  destruct inputValue as [| v0 rest]; [congruence |].
  change ((v0 :: rest) !! 0%nat) with (Some v0). cbv beta iota.
  cbn [unmarshalField unmarshalFieldNonPtr bindUnmarshaler method Kind_of is_Slice Elem].
  cbv beta iota zeta. cbn [length Nat.ltb Nat.leb andb].
  pose proof (fillSlice_all elem (v0 :: rest) [] [] eq_refl Hok) as H.
  cbn [app length] in H. rewrite H. reflexivity.
Qed.

(** X2.  When a value of the key of a slice field does not convert, the
    error of the first such value is returned and the field keeps what it
    held: the new slice is stored only when every element has converted. *)
Theorem slice_field_first_failure (typeField : StructField) (structField : Val)
  (elem : type) (iok : list string) (s : string) (ipost : list string) (e : error) :
  Type_ typeField = TSlice elem None ->
  Forall (fun s => snd (setWithProperType elem s (zero elem)) = None) iok ->
  snd (setWithProperType elem s (zero elem)) = Some e ->
  assignField typeField structField (iok ++ s :: ipost)%list
  = Ret (structField, Return (Some e)).
Proof.
  intros Ht Hok Hs. unfold assignField. rewrite Ht.
  destruct (fillSlice_fails elem s ipost e iok Hs [] [] eq_refl Hok) as (slice & Hf).
  cbn [app length] in Hf.
  destruct (iok ++ s :: ipost)%list as [| v0 rest] eqn:Hin.
  - destruct iok; discriminate Hin.
  - change ((v0 :: rest) !! 0%nat) with (Some v0). cbv beta iota.
    cbn [unmarshalField unmarshalFieldNonPtr bindUnmarshaler method Kind_of is_Slice Elem].
    cbv beta iota zeta. cbn [length Nat.ltb Nat.leb andb].
    cbn [length] in Hf. rewrite Hf. reflexivity.
Qed.

(** ** The method comes first *)

Lemma unmarshalFieldNonPtr_no_method (value : string) (t : type) (field : Val) :
  method t = None -> unmarshalFieldNonPtr value t field = (false, field, None).
Proof. intros H. unfold unmarshalFieldNonPtr, bindUnmarshaler. rewrite H. reflexivity. Qed.

Lemma setWithProperType_method (t : type) (val : string) (field : Val) (um : Unmarshaler) :
  method t = Some um ->
  setWithProperType t val field = um val (zero t).
Proof.
  intros H.
  destruct t as [b um' | elem | elem um' | fields um' |]; cbn [method] in H;
    try discriminate H; subst um';
    cbn [setWithProperType unmarshalField];
    erewrite unmarshalFieldNonPtr_method by reflexivity;
    cbv beta iota; destruct (um val _); reflexivity.
Qed.

(** X4.  A type with an [UnmarshalParam] method is converted by the
    method alone, run on a new zero value: the result is what the method
    leaves and returns, whatever the field held and whatever the kind of the
    type; the parsers of the kind are not used. *)
Theorem method_decides_conversion (t : type) (val : string) (um : Unmarshaler)
  (field field' : Val) :
  method t = Some um ->
  setWithProperType t val field = um val (zero t)
  /\ setWithProperType t val field = setWithProperType t val field'.
Proof.
  intros H. split.
  - apply setWithProperType_method, H.
  - rewrite !(setWithProperType_method _ _ _ _ H). reflexivity.
Qed.

(** ** Pointers *)

(** X3.  Converting into a field of pointer type is converting into its
    pointee, a new zero value when the pointer was nil: the field is never
    nil afterwards, also when the conversion has failed. *)
Theorem pointer_field_is_allocated (elem : type) (val : string) (field : Val) :
  setWithProperType (TPtr elem) val field
  = (VPtr (Some (fst (setWithProperType elem val (pointee elem field)))),
     snd (setWithProperType elem val (pointee elem field))).
Proof.
  cbn [setWithProperType unmarshalField]. unfold unmarshalFieldPtr.
  destruct (method elem) as [um |] eqn:Hm.
  - rewrite (setWithProperType_method _ _ _ _ Hm).
    rewrite (unmarshalFieldNonPtr_method val elem _ um Hm). reflexivity.
  - rewrite (unmarshalFieldNonPtr_no_method val elem _ Hm). cbv beta iota. cbn [pointee].
    destruct (setWithProperType elem val (pointee elem field)). reflexivity.
Qed.

(** ** Kinds without a conversion *)

(** X5.  A field whose type has no [UnmarshalParam] and is a struct, a
    slice, [time.Time] or of a kind other than the scalar ones is not
    converted by [setWithProperType]: the error "unknown type" is returned
    and the field is left.  So a struct field with a tag for the binding
    mode whose key is in the map makes the bind fail. *)
Theorem unsupported_type_is_rejected (t : type) (val : string) (field : Val) :
  method t = None ->
  match t with
  | TBasic b _ => scalar b = false
  | TPtr _ => False
  | _ => True
  end ->
  setWithProperType t val field = (field, Some (errorString "unknown type")).
Proof.
  intros Hm Ht.
  destruct t as [b um | elem | elem um | fields um |]; cbn [method] in Hm;
    try contradiction; try subst um;
    cbn [setWithProperType unmarshalField unmarshalFieldNonPtr bindUnmarshaler method];
    cbv beta iota zeta; try reflexivity.
  destruct b; try discriminate Ht; reflexivity.
Qed.

(** ** Timestamps *)

(** X6.  [setTimeField] writes the field only when it returns no error:
    when the format is missing, the location does not load or the value
    does not parse, the field keeps what it held; and what it writes is a
    [time.Time]. *)
Theorem setTimeField_writes_on_success (value : string) (structField : StructField)
  (field v : Val) (err : option error) :
  setTimeField value structField field = (v, err) ->
  match err with
  | Some _ => v = field
  | None => exists t, v = VTime t
  end.
Proof.
  unfold setTimeField.
  destruct (String.eqb (Tag_Get (Tag structField) "time_format") "").
  { intros H. inversion H. reflexivity. }
  destruct (String.eqb value "").
  { intros H. inversion H. eexists. reflexivity. }
  destruct (if negb (String.eqb (Tag_Get (Tag structField) "time_location") "")
            then LoadLocation (Tag_Get (Tag structField) "time_location")
            else _) as [l [e |]].
  { intros H. inversion H. reflexivity. }
  destruct (ParseInLocation _ value l) as [t [e |]]; intros H; inversion H.
  - reflexivity.
  - eexists. reflexivity.
Qed.

(** ** Which values are used *)

Lemma unmarshalField_method (t : type) (val : string) (field : Val) (um : Unmarshaler) :
  method t = Some um ->
  unmarshalField t val field = (true, fst (um val (zero t)), snd (um val (zero t))).
Proof.
  intros H. destruct t; cbn [method] in H; try discriminate H; cbn [unmarshalField];
    apply unmarshalFieldNonPtr_method; exact H.
Qed.

(** X8.  Only a slice field without an [UnmarshalParam] uses all the
    values of its key: every other field is set from the first value, and
    the values after it change nothing. *)
Theorem only_first_value_is_used (typeField : StructField) (structField : Val)
  (v0 : string) (rest : list string) :
  is_Slice (Kind_of (Type_ typeField)) = false \/ method (Type_ typeField) <> None ->
  assignField typeField structField (v0 :: rest)
  = assignField typeField structField [v0].
Proof.
  intros H. unfold assignField.
  change ((v0 :: rest) !! 0%nat) with (Some v0). change ([v0] !! 0%nat) with (Some v0).
  cbv beta iota.
  destruct (method (Type_ typeField)) as [um |] eqn:Hm.
  - rewrite (unmarshalField_method _ _ _ _ Hm). reflexivity.
  - destruct H as [Hk | Hne]; [| congruence].
    rewrite Hk. cbn [andb]. reflexivity.
Qed.

(** ** Which keys resolve *)

Lemma scan_None (data : Data) (name : string) :
  scan data name = None -> forall k, In k (map fst data) -> ToLower k <> name.
Proof.
  induction data as [| [k w] data IH]; cbn [scan map fst In]; [tauto |].
  destruct (String.eqb_spec (ToLower k) name) as [Heq | Hne]; [discriminate |].
  intros H k' [<- | Hin]; [exact Hne | exact (IH H k' Hin)].
Qed.

(** X9.  The lookup of a field finds values exactly when some key of the
    map is the lookup key once both are put in lower case, and the values
    found are those of such a key: case alone never makes a lookup fail. *)
Theorem resolve_iff_lower_case_match (data : Data) (name : string) :
  (resolve data name = None <->
   forall k, In k (map fst data) -> ToLower k <> ToLower name)
  /\ (forall v, resolve data name = Some v ->
                exists k, In (k, v) data /\ ToLower k = ToLower name).
Proof.
  split; [split |].
  - unfold resolve. destruct (map_index data name); [discriminate |]. apply scan_None.
  - apply resolve_absent.
  - intros v. unfold resolve. destruct (map_index data name) as [w |] eqn:Hl.
    + intros H. inversion H. subst w. exists name. split; [| reflexivity].
      apply map_index_In, Hl.
    + apply scan_In.
Qed.

(** ** The empty map *)

Lemma bindFields_empty_map (recurse : type -> Val -> res (Val * option error))
  (tag : string) (fs : list StructField) :
  Forall (fun f => forall v, shaped (Type_ f) v -> is_Struct (Kind_of (Type_ f)) = true ->
                             recurse (Type_ f) v = Ret (v, None)) fs ->
  forall (i : nat) (vs : list Val),
    Forall2 (fun f v => shaped (Type_ f) v) fs (drop i vs) ->
    bindFields recurse [] tag fs i vs = Ret (VStruct vs, None).
Proof.
  intros Hfs. induction Hfs as [| f fs Hf _ IH]; intros i vs Hvs; cbn [bindFields].
  - reflexivity.
  - inversion Hvs as [| f' x fs' rest Hx Hrest Heq1 Heq2]. subst f' fs'.
    assert (Hi : vs !! i = Some x).
    { rewrite <- (Nat.add_0_r i), <- lookup_drop, <- Heq2. reflexivity. }
    rewrite Hi.
    assert (Hb : bindField recurse [] tag f x = Ret (x, Continue)).
    { unfold bindField. destruct (negb (CanSet f)); [reflexivity |].
      destruct (nested f tag) eqn:Hn; [| reflexivity].
      rewrite (Hf x Hx); [reflexivity |].
      unfold nested in Hn. apply andb_prop in Hn. tauto. }
    rewrite Hb, (list_insert_id _ _ _ Hi). apply IH.
    assert (Hd : drop (S i) vs = rest).
    { rewrite (drop_S _ _ _ Hi) in Heq2. inversion Heq2. reflexivity. }
    rewrite Hd. exact Hrest.
Qed.

Lemma bindData_empty_map (typ : type) (tag : string) :
  forall val : Val,
    shaped typ val -> is_Struct (Kind_of typ) = true ->
    bindData typ val [] tag = Ret (val, None).
Proof.
  induction typ as [b um | elem _ | elem um _ | fields um IH |] using type_ind_nested;
    intros val Hval Hk; try discriminate Hk; cbn [bindData]; [| reflexivity].
  inversion Hval as [fields' um' vs Hvs | t v Hne]; subst.
  - cbn [Fields]. apply bindFields_empty_map; [exact IH | exact Hvs].
  - exfalso. exact (Hne fields um eq_refl).
Qed.

(** X10.  Binding from an empty map changes nothing and returns no error,
    for every struct type, nested structs included, and every target that
    has the fields of its type. *)
Theorem empty_map_changes_nothing (typ : type) (val : Val) (tag : string) :
  shaped typ val -> is_Struct (Kind_of typ) = true ->
  bindData typ val [] tag = Ret (val, None).
Proof. apply bindData_empty_map. Qed.

Lemma bindFields_length (recurse : type -> Val -> res (Val * option error))
  (data : Data) (tag : string) (fs : list StructField) :
  forall (i : nat) (vs : list Val) (val' : Val) (err : option error),
    bindFields recurse data tag fs i vs = Ret (val', err) ->
    length (Fields val') = length vs.
Proof.
  induction fs as [| f fs IH]; intros i vs val' err; cbn [bindFields].
  - intros H. inversion H. reflexivity.
  - destruct (vs !! i) as [sf |]; [| discriminate].
    destruct (bindField recurse data tag f sf) as [[v [| e]] | p]; [| | discriminate].
    + intros H. rewrite (IH _ _ _ _ H). apply length_insert.
    + intros H. inversion H. cbn [Fields]. apply length_insert.
Qed.

(** X11.  On a target that has the fields of its type and a map in which
    every key has at least one value, [bindData] does not panic: it returns
    an error or none and the target, bound as far as the walk went, with as
    many fields as it had. *)
Theorem bindData_does_not_panic (typ : type) (val : Val) (data : Data) (tag : string) :
  shaped typ val -> nonempty_values data ->
  exists val' err,
    bindData typ val data tag = Ret (val', err)
    /\ length (Fields val') = length (Fields val).
Proof.
  intros Hval Hdata.
  destruct (bindData_returns typ val data tag Hval Hdata) as (val' & err & Hrun).
  exists val', err. split; [exact Hrun |].
  destruct typ as [b um | elem | elem um | fields um |]; cbn [bindData] in Hrun;
    try (inversion Hrun; reflexivity).
  exact (bindFields_length _ _ _ _ _ _ _ _ Hrun).
Qed.

(** ** Unexported fields *)

Lemma bindFields_unexported (recurse : type -> Val -> res (Val * option error))
  (data : Data) (tag : string) (fs : list StructField) :
  forall (i : nat) (vs : list Val) (val' : Val) (err : option error),
    bindFields recurse data tag fs i vs = Ret (val', err) ->
    forall j : nat,
      (j < i)%nat \/ (exists f, fs !! (j - i)%nat = Some f /\ (i <= j)%nat
                                /\ CanSet f = false) ->
      Fields val' !! j = vs !! j.
Proof.
  induction fs as [| f0 fs IH]; intros i vs val' err Hrun j Hj; cbn [bindFields] in Hrun.
  - inversion Hrun. reflexivity.
  - destruct (vs !! i) as [sf |] eqn:Hi; [| discriminate].
    assert (Hlen : (i < length vs)%nat) by (eapply lookup_lt_Some; eassumption).
    destruct (Nat.eq_dec j i) as [-> | Hne].
    + destruct Hj as [Hlt | (f & Hf & _ & Hset)]; [lia |].
      rewrite Nat.sub_diag in Hf. cbn in Hf. inversion Hf. subst f.
      unfold bindField in Hrun. rewrite Hset in Hrun. cbn [negb] in Hrun.
      rewrite (IH _ _ _ _ Hrun i) by (left; lia).
      rewrite list_lookup_insert_eq by exact Hlen. symmetry. exact Hi.
    + destruct (bindField recurse data tag f0 sf) as [[v [| e]] | p]; [| | discriminate].
      * rewrite (IH _ _ _ _ Hrun j).
        -- apply list_lookup_insert_ne. lia.
        -- destruct Hj as [Hlt | (f & Hf & Hle & Hset)]; [left; lia |].
           right. exists f. repeat split; try assumption; [| lia].
           replace (j - i)%nat with (S (j - S i)) in Hf by lia. exact Hf.
      * inversion Hrun. cbn [Fields]. apply list_lookup_insert_ne. lia.
Qed.

Lemma bindFields_recursed (recurse : type -> Val -> res (Val * option error))
  (data : Data) (tag : string) (fs : list StructField) :
  forall (i : nat) (vs : list Val) (val' : Val) (err : option error),
    bindFields recurse data tag fs i vs = Ret (val', err) ->
    forall (j : nat) (f : StructField),
      fs !! (j - i)%nat = Some f -> (i <= j)%nat -> recursed f tag = true ->
      Fields val' !! j = vs !! j
      \/ exists (v v' : Val) (e : option error),
           vs !! j = Some v /\ recurse (Type_ f) v = Ret (v', e)
           /\ Fields val' !! j = Some v'.
Proof.
  induction fs as [| f0 fs IH]; intros i vs val' err Hrun j f Hf Hle Hrec;
    [discriminate |].
  pose proof Hrun as Hrun0. cbn [bindFields] in Hrun.
  destruct (vs !! i) as [sf |] eqn:Hi; [| discriminate].
  assert (Hlen : (i < length vs)%nat) by (eapply lookup_lt_Some; eassumption).
  destruct (Nat.eq_dec j i) as [-> | Hne].
  - rewrite Nat.sub_diag in Hf. cbn in Hf. inversion Hf. subst f0.
    unfold recursed in Hrec. apply andb_prop in Hrec. destruct Hrec as [Hset Hn].
    rewrite (bindField_nested _ _ _ _ _ Hset Hn) in Hrun.
    destruct (recurse (Type_ f) sf) as [[v [e |]] | p] eqn:Hr; [| | discriminate].
    + inversion Hrun. right. exists sf, v, (Some e). cbn [Fields].
      rewrite list_lookup_insert_eq by exact Hlen. repeat split; assumption.
    + right. exists sf, v, None.
      rewrite (bindFields_unexported _ _ _ _ _ _ _ _ Hrun i) by (left; lia).
      rewrite list_lookup_insert_eq by exact Hlen. repeat split; assumption.
  - replace (j - i)%nat with (S (j - S i)) in Hf by lia. cbn in Hf.
    destruct (bindField recurse data tag f0 sf) as [[v [| e]] | p]; [| | discriminate].
    + destruct (IH _ _ _ _ Hrun j f Hf ltac:(lia) Hrec) as [Hsame | (v0 & v' & e & Hv & Hr & Hv')].
      * left. rewrite Hsame. apply list_lookup_insert_ne. lia.
      * right. exists v0, v', e. rewrite list_lookup_insert_ne in Hv by lia.
        repeat split; assumption.
    + inversion Hrun. left. cbn [Fields]. apply list_lookup_insert_ne. lia.
Qed.

(** X19.  [bindData] leaves every field that is not exported, in the
    target and in the nested structs it goes into, at every depth:
    whatever the map holds and whether the walk ends with an error or not,
    such a field has the value it had.  (A field that is converted, as one
    whose type has [UnmarshalParam], is replaced as a whole and is not gone
    into.) *)
Theorem unexported_field_is_kept (typ : type) (val val' : Val) (data : Data)
  (tag : string) (err : option error) (path : list nat) :
  bindData typ val data tag = Ret (val', err) ->
  unexported_at tag typ path ->
  at_path val' path = at_path val path.
Proof.
  intros Hrun Hp. revert val val' err Hrun.
  induction Hp as [fields um j f Hf Hset | fields um j f path Hf Hrec Hp IH];
    intros val val' err Hrun; cbn [bindData] in Hrun; cbn [at_path].
  - rewrite (bindFields_unexported _ _ _ _ _ _ _ _ Hrun j); [reflexivity |].
    right. exists f. rewrite Nat.sub_0_r. repeat split; try assumption. lia.
  - assert (Hf0 : fields !! (j - 0)%nat = Some f) by (rewrite Nat.sub_0_r; exact Hf).
    destruct (bindFields_recursed _ _ _ _ _ _ _ _ Hrun j f Hf0 ltac:(lia) Hrec)
      as [Hsame | (v & v' & e & Hv & Hr & Hv')].
    + rewrite Hsame. reflexivity.
    + rewrite Hv, Hv'. exact (IH _ _ _ Hr).
Qed.

(** ** Integers *)

Lemma setIntField_success (val : string) (bitSize : Z) (t : type) (field v : Val) :
  bitSize = 0 \/ width bitSize ->
  setIntField val bitSize t field = (v, None) ->
  exists i, v = SetInt t i field
            /\ - 2 ^ (bits_of IntSize bitSize - 1) <= i < 2 ^ (bits_of IntSize bitSize - 1)
            /\ (val = "" \/ signed_decimal val = true).
Proof.
  intros Hbs. unfold setIntField.
  destruct (strconv.ParseInt IntSize _ bitSize) as [i [e |]] eqn:HP; [discriminate |].
  intros H. inversion H. exists i. split; [reflexivity |].
  destruct (strconv_range.ParseInt_success IntSize IntSize_width _ _ _ Hbs HP) as [Hr Hd].
  split; [exact Hr |].
  destruct (String.eqb_spec val ""); [left; assumption | right; exact Hd].
Qed.

Lemma setUintField_success (val : string) (bitSize : Z) (t : type) (field v : Val) :
  bitSize = 0 \/ width bitSize ->
  setUintField val bitSize t field = (v, None) ->
  exists u, v = SetUint t u field
            /\ 0 <= u < 2 ^ bits_of IntSize bitSize
            /\ (val = "" \/ decimal val = true).
Proof.
  intros Hbs. unfold setUintField.
  destruct (strconv.ParseUint IntSize _ bitSize) as [u [e |]] eqn:HP; [discriminate |].
  intros H. inversion H. exists u. split; [reflexivity |].
  destruct (strconv_range.ParseUint_cases IntSize IntSize_width _ _ _ _ Hbs HP) as [Hr Hd].
  split; [exact Hr |].
  destruct (String.eqb_spec val ""); [left; assumption | right; exact Hd].
Qed.

Ltac reduce_no_method :=
  cbn [setWithProperType unmarshalField unmarshalFieldNonPtr bindUnmarshaler method];
  cbv beta iota zeta.

Lemma int_conversion_success (b : Basic) (bits : Z) (val : string) (field v : Val) :
  signed_width b = Some bits ->
  setWithProperType (TBasic b None) val field = (v, None) ->
  exists i, v = VInt i /\ - 2 ^ (bits - 1) <= i < 2 ^ (bits - 1)
            /\ (val = "" \/ signed_decimal val = true).
Proof.
  intros Hb. pose proof (signed_width_bits _ _ Hb) as Hw.
  destruct b; inversion Hb; subst bits; reduce_no_method; intros H;
    (apply setIntField_success in H; [| unfold width; tauto]);
    destruct H as (i & -> & Hr & Hd); exists i; cbn [SetInt];
    (split; [rewrite wrap_int_small by assumption; reflexivity | split; assumption]).
Qed.

Lemma uint_conversion_success (b : Basic) (bits : Z) (val : string) (field v : Val) :
  unsigned_width b = Some bits ->
  setWithProperType (TBasic b None) val field = (v, None) ->
  exists u, v = VUint u /\ 0 <= u < 2 ^ bits /\ (val = "" \/ decimal val = true).
Proof.
  intros Hb.
  destruct b; inversion Hb; subst bits; reduce_no_method; intros H;
    (apply setUintField_success in H; [| unfold width; tauto]);
    destruct H as (u & -> & Hr & Hd); exists u; cbn [SetUint];
    (split; [rewrite wrap_uint_small by assumption; reflexivity | split; assumption]).
Qed.

Lemma signed_decimal_nonempty (val : string) :
  signed_decimal val = true -> String.eqb val "" = false.
Proof. destruct val; [discriminate | reflexivity]. Qed.

Lemma decimal_nonempty (val : string) : decimal val = true -> String.eqb val "" = false.
Proof. destruct val; [discriminate | reflexivity]. Qed.

Lemma setIntField_value (val : string) (bitSize : Z) (t : type) (field : Val) :
  bitSize = 0 \/ width bitSize -> signed_decimal val = true ->
  setIntField val bitSize t field
  = if (- 2 ^ (bits_of IntSize bitSize - 1) <=? signed_value val)
       && (signed_value val <? 2 ^ (bits_of IntSize bitSize - 1))
    then (SetInt t (signed_value val) field, None)
    else (field, Some (NumError "ParseInt" val ErrRange)).
Proof.
  intros Hbs Hd. unfold setIntField. rewrite (signed_decimal_nonempty val Hd).
  rewrite (strconv_range.ParseInt_value IntSize IntSize_width val bitSize Hbs Hd).
  destruct (_ && _); reflexivity.
Qed.

Lemma setUintField_value (val : string) (bitSize : Z) (t : type) (field : Val) :
  bitSize = 0 \/ width bitSize -> decimal val = true ->
  setUintField val bitSize t field
  = if decimal_value val <? 2 ^ bits_of IntSize bitSize
    then (SetUint t (decimal_value val) field, None)
    else (field, Some (NumError "ParseUint" val ErrRange)).
Proof.
  intros Hbs Hd. unfold setUintField. rewrite (decimal_nonempty val Hd).
  rewrite (strconv_range.ParseUint_value IntSize IntSize_width val bitSize Hbs Hd).
  destruct (_ <? _); reflexivity.
Qed.

Lemma decimal_value_nonneg (val : string) : decimal val = true -> 0 <= decimal_value val.
Proof.
  intros Hd. unfold decimal in Hd. apply andb_prop in Hd.
  apply (proj1 (strconv_range.digits_value_mono val 0 ltac:(lia) (proj2 Hd))).
Qed.

(** X12.  A conversion to an integer kind from a decimal numeral (with an
    optional sign for the signed kinds) stores the number of the numeral
    when it is in the range of the kind, and otherwise returns the range
    error of [ParseInt] or [ParseUint] and leaves the field: a number that
    does not fit is never stored wrapped. *)
Theorem integer_conversion_exact (b : Basic) (bits : Z) (val : string) (field : Val) :
  (signed_width b = Some bits -> signed_decimal val = true ->
   setWithProperType (TBasic b None) val field
   = if (- 2 ^ (bits - 1) <=? signed_value val) && (signed_value val <? 2 ^ (bits - 1))
     then (VInt (signed_value val), None)
     else (field, Some (NumError "ParseInt" val ErrRange)))
  /\ (unsigned_width b = Some bits -> decimal val = true ->
      setWithProperType (TBasic b None) val field
      = if decimal_value val <? 2 ^ bits
        then (VUint (decimal_value val), None)
        else (field, Some (NumError "ParseUint" val ErrRange))).
Proof.
  split; intros Hb Hd.
  - pose proof (signed_width_bits _ _ Hb) as Hw.
    destruct b; inversion Hb; subst bits; reduce_no_method;
      (rewrite setIntField_value; [| unfold width; tauto | exact Hd]);
      unfold bits_of; cbn [Z.eqb];
      match goal with
      | |- context [?lo <=? signed_value val] => destruct (Z.leb_spec lo (signed_value val))
      end; cbn [andb]; try reflexivity;
      match goal with
      | |- context [signed_value val <? ?hi] => destruct (Z.ltb_spec (signed_value val) hi)
      end; try reflexivity;
      cbn [SetInt]; rewrite wrap_int_small by (assumption || lia); reflexivity.
  - pose proof (decimal_value_nonneg val Hd) as Hnn.
    destruct b; inversion Hb; subst bits; reduce_no_method;
      (rewrite setUintField_value; [| unfold width; tauto | exact Hd]);
      unfold bits_of; cbn [Z.eqb];
      match goal with
      | |- context [decimal_value val <? ?hi] => destruct (Z.ltb_spec (decimal_value val) hi)
      end; try reflexivity;
      cbn [SetUint]; rewrite wrap_uint_small by lia; reflexivity.
Qed.

(** X13.  A conversion to an integer kind returns no error only on the
    empty token and on decimal numerals: digits [0] to [9], after one
    optional sign for the signed kinds, and nothing else (no space, no
    separator, no base prefix). *)
Theorem integer_conversion_reads_decimal (b : Basic) (bits : Z) (val : string)
  (field v : Val) :
  setWithProperType (TBasic b None) val field = (v, None) ->
  (signed_width b = Some bits -> val = "" \/ signed_decimal val = true)
  /\ (unsigned_width b = Some bits -> val = "" \/ decimal val = true).
Proof.
  intros H. split; intros Hb.
  - destruct (int_conversion_success _ _ _ _ _ Hb H) as (i & _ & _ & Hd). exact Hd.
  - destruct (uint_conversion_success _ _ _ _ _ Hb H) as (u & _ & _ & Hd). exact Hd.
Qed.

End WalkerFacts.

(** * Facts on the front end *)

Section BindFacts.

Context `{RT : Runtime} {EC : Echo}.

(** X14.  A request without a body whose method is neither GET nor
    DELETE is refused with the 400 error "Request body can't be empty": the
    target is not touched, and neither the content type nor the parameters
    of the request are looked at. *)
Theorem Bind_empty_body (typ : type) (val : Val) (c : Context) :
  ContentLength (Request_ c) = 0 ->
  Method (Request_ c) <> "GET" -> Method (Request_ c) <> "DELETE" ->
  Bind typ val c
  = Ret (val, Some (NewHTTPError 400 "Request body can't be empty")).
Proof.
  intros Hlen Hget Hdel. unfold Bind. rewrite Hlen. cbn [Z.eqb].
  unfold MethodGet, MethodDelete.
  destruct (String.eqb_spec (Method (Request_ c)) "GET"); [contradiction |].
  destruct (String.eqb_spec (Method (Request_ c)) "DELETE"); [contradiction |].
  reflexivity.
Qed.

(** X15.  Every error [Bind] returns is [ErrUnsupportedMediaType], the
    400 error of the empty body, or a 400 error whose internal error is the
    error it comes from: the error [bindData] returned on the query
    parameters (request without a body) or on the form parameters, the
    error the JSON or the XML decoder returned on the body, or the error of
    [FormParams]; the message is the text of that error, except for the
    decoders.  The target is as it was in the first two cases and when
    [FormParams] fails, and as [bindData] or the decoder left it otherwise. *)
Theorem Bind_errors (typ : type) (val val' : Val) (c : Context) (herr : HTTPError) :
  Bind typ val c = Ret (val', Some herr) ->
  (herr = ErrUnsupportedMediaType /\ val' = val)
  \/ (herr = NewHTTPError 400 "Request body can't be empty" /\ val' = val)
  \/ (exists e : error,
        herr = SetInternal (NewHTTPError 400 (Error (binder_error e))) (binder_error e)
        /\ ContentLength (Request_ c) = 0
        /\ bindData typ val (QueryParams c) "query" = Ret (val', Some e))
  \/ (exists (e : error) (params : Data),
        herr = SetInternal (NewHTTPError 400 (Error (binder_error e))) (binder_error e)
        /\ ContentLength (Request_ c) <> 0
        /\ HasPrefix (ContentType (Request_ c)) MIMEApplicationForm
           || HasPrefix (ContentType (Request_ c)) MIMEMultipartForm = true
        /\ FormParams c = (params, None)
        /\ bindData typ val params "form" = Ret (val', Some e))
  \/ (exists cause : goerror,
        herr = SetInternal (NewHTTPError 400 (Error cause)) cause
        /\ ContentLength (Request_ c) <> 0
        /\ HasPrefix (ContentType (Request_ c)) MIMEApplicationForm
           || HasPrefix (ContentType (Request_ c)) MIMEMultipartForm = true
        /\ snd (FormParams c) = Some cause /\ val' = val)
  \/ (exists (message : string) (cause : goerror),
        herr = SetInternal (NewHTTPError 400 message) cause
        /\ ContentLength (Request_ c) <> 0
        /\ HasPrefix (ContentType (Request_ c)) MIMEApplicationJSON = true
        /\ json_Decode (Body (Request_ c)) typ val = (val', Some cause))
  \/ (exists (message : string) (cause : goerror),
        herr = SetInternal (NewHTTPError 400 message) cause
        /\ ContentLength (Request_ c) <> 0
        /\ HasPrefix (ContentType (Request_ c)) MIMEApplicationJSON = false
        /\ HasPrefix (ContentType (Request_ c)) MIMEApplicationXML
           || HasPrefix (ContentType (Request_ c)) MIMETextXML = true
        /\ xml_Decode (Body (Request_ c)) typ val = (val', Some cause)).
Proof.
  assert (Hbad : forall r, bad_request r = Ret (val', Some herr) ->
                           exists e : error,
                             herr = SetInternal (NewHTTPError 400 (Error (binder_error e)))
                                      (binder_error e)
                             /\ r = Ret (val', Some e)).
  { intros [[i [e |]] | p]; cbn [bad_request]; intros H; inversion H. eauto. }
  unfold Bind.
  destruct (Z.eqb_spec (ContentLength (Request_ c)) 0) as [Hlen | Hlen].
  { destruct (_ || _).
    - intros H. destruct (Hbad _ H) as (e & He & Hr).
      right. right. left. exists e. repeat split; assumption.
    - intros H. inversion H. right. left. split; reflexivity. }
  destruct (HasPrefix _ MIMEApplicationJSON) eqn:Hjson.
  { destruct (json_Decode _ typ val) as [i [e |]]; intros H; inversion H; subst.
    do 5 right. left. eexists. exists e. repeat split; assumption. }
  destruct (HasPrefix _ MIMEApplicationXML || HasPrefix _ MIMETextXML) eqn:Hxml.
  { destruct (xml_Decode _ typ val) as [i [e |]]; intros H; inversion H; subst.
    do 6 right. eexists. exists e. repeat split; assumption. }
  destruct (HasPrefix _ MIMEApplicationForm || HasPrefix _ MIMEMultipartForm) eqn:Hform_type.
  { destruct (FormParams c) as [params [e |]] eqn:Hform.
    - intros H. inversion H. subst. do 4 right. left. exists e.
      repeat split; assumption.
    - intros H. destruct (Hbad _ H) as (e & He & Hr).
      do 3 right. left. exists e, params. repeat split; assumption. }
  intros H. inversion H. left. split; reflexivity.
Qed.

(** X16.  A GET or DELETE request without a body is bound from the query
    parameters with the tag [query], whatever its content type, body and
    form parameters: [Bind] returns no error exactly when [bindData] does,
    with the target as [bindData] leaves it, and an error of [bindData]
    comes back as the internal error of a 400 error whose message is its
    text. *)
Theorem Bind_query (typ : type) (val val' : Val) (c : Context) :
  ContentLength (Request_ c) = 0 ->
  Method (Request_ c) = "GET" \/ Method (Request_ c) = "DELETE" ->
  (Bind typ val c = Ret (val', None)
   <-> bindData typ val (QueryParams c) "query" = Ret (val', None))
  /\ (forall err,
        bindData typ val (QueryParams c) "query" = Ret (val', Some err) ->
        Bind typ val c
        = Ret (val', Some (SetInternal (NewHTTPError 400 (Error (binder_error err)))
                                       (binder_error err)))).
Proof.
  intros Hlen Hm. unfold Bind. rewrite Hlen. cbn [Z.eqb].
  assert (Hb : String.eqb (Method (Request_ c)) MethodGet
               || String.eqb (Method (Request_ c)) MethodDelete = true).
  { destruct Hm as [-> | ->]; reflexivity. }
  rewrite Hb. split; [split |].
  - destruct (bindData typ val (QueryParams c) "query") as [[i [e |]] | p];
      cbn [bad_request]; intros H; inversion H; reflexivity.
  - intros ->. reflexivity.
  - intros err ->. reflexivity.
Qed.

(** X17.  A request with a body whose content type starts with none of
    the five MIME constants is refused with [ErrUnsupportedMediaType]; no
    decoder is run and the target is not touched. *)
Theorem Bind_unsupported_media_type (typ : type) (val : Val) (c : Context) :
  ContentLength (Request_ c) <> 0 ->
  Forall (fun mime => HasPrefix (ContentType (Request_ c)) mime = false)
    [MIMEApplicationJSON; MIMEApplicationXML; MIMETextXML;
     MIMEApplicationForm; MIMEMultipartForm] ->
  Bind typ val c = Ret (val, Some ErrUnsupportedMediaType).
Proof.
  intros Hlen Hmime. unfold Bind.
  destruct (Z.eqb_spec (ContentLength (Request_ c)) 0); [contradiction |].
  repeat match goal with
         | H : Forall _ (_ :: _) |- _ =>
             let H1 := fresh in let H2 := fresh in
             inversion H as [| ? ? H1 H2]; subst; clear H; cbv beta in H1;
             rewrite H1
         end.
  reflexivity.
Qed.

(** X18.  A GET or DELETE request without a body and without query
    parameters binds nothing: [Bind] returns no error and the target, a
    struct that has the fields of its type, nested structs included, is as
    it was. *)
Theorem Bind_no_parameters (typ : type) (val : Val) (c : Context) :
  ContentLength (Request_ c) = 0 ->
  Method (Request_ c) = "GET" \/ Method (Request_ c) = "DELETE" ->
  QueryParams c = [] ->
  shaped typ val -> is_Struct (Kind_of typ) = true ->
  Bind typ val c = Ret (val, None).
Proof.
  intros Hlen Hm Hq Hval Hk. unfold Bind. rewrite Hlen. cbn [Z.eqb].
  assert (Hb : String.eqb (Method (Request_ c)) MethodGet
               || String.eqb (Method (Request_ c)) MethodDelete = true).
  { destruct Hm as [-> | ->]; reflexivity. }
  rewrite Hb, Hq, (bindData_empty_map typ "query" val Hval Hk). reflexivity.
Qed.

End BindFacts.

(** * The theorems at work on the example runtime *)

#[local] Existing Instance example_runtime.

Lemma scalar_setter_keeps_field_on_error_witness :
  snd (strconv.ParseInt IntSize "12x" 8) = Some (NumError "ParseInt" "12x" ErrSyntax)
  /\ setIntField "12x" 8 (TBasic Int8 None) (VInt 5)
     = (VInt 5, Some (NumError "ParseInt" "12x" ErrSyntax)).
Proof.
  split; [reflexivity |].
  apply (proj1 (scalar_setter_keeps_field_on_error "12x" 8 (TBasic Int8 None) (VInt 5) _)).
  reflexivity.
Defined.

Lemma setBoolField_tokens_witness :
  In "T" true_tokens
  /\ setBoolField "T" (VBool false) = (VBool true, None)
  /\ setBoolField "" (VBool true) = (VBool false, None)
  /\ setBoolField "yes" (VBool true) = (VBool true, Some (NumError "ParseBool" "yes" ErrSyntax)).
Proof.
  assert (HT : In "T" true_tokens) by (simpl; tauto).
  split; [exact HT |]. split; [| split].
  - apply (proj1 (setBoolField_tokens "T" (VBool false))). exact HT.
  - apply (proj1 (proj2 (setBoolField_tokens "" (VBool true)))). right. reflexivity.
  - apply (proj2 (proj2 (setBoolField_tokens "yes" (VBool true)))).
    + simpl. intros H. repeat (destruct H as [H | H]; [discriminate H |]). exact H.
    + discriminate.
Defined.

Lemma empty_token_sets_zero_witness :
  ParseFloat "0.0" 32 = (float_zero, None)
  /\ ParseFloat "0.0" 64 = (float_zero, None)
  /\ scalar Float64 = true
  /\ setWithProperType (TBasic Float64 None) "" (@VFloat example_runtime 5) = (@VFloat example_runtime 0, None).
Proof.
  split; [reflexivity |]. split; [reflexivity |]. split; [reflexivity |].
  apply (empty_token_sets_zero Float64 (@VFloat example_runtime 5)); reflexivity.
Defined.

Lemma decimal_round_trip_witness :
  signed_width Int8 = Some 8
  /\ - 2 ^ (8 - 1) <= -128 < 2 ^ (8 - 1)
  /\ setWithProperType (TBasic Int8 None) (strconv.FormatInt (-128)) (VInt 0)
     = (VInt (-128), None)
  /\ setWithProperType (TBasic Uint16 None) (strconv.FormatUint 65535) (VUint 0)
     = (VUint 65535, None).
Proof.
  split; [reflexivity |]. split; [lia |]. split.
  - apply (proj1 (decimal_round_trip Int8 8 (-128) (VInt 0))); [reflexivity | lia].
  - apply (proj2 (decimal_round_trip Uint16 16 65535 (VUint 0))); [reflexivity | lia].
Defined.


Lemma index_accesses_in_bounds_witness :
  nonempty_values [("A", ["1"; "2"])]
  /\ bindData (TStruct [mkField "A" [] (TSlice (TBasic Int64 None) None)] None)
       (VStruct [VSlice []]) [("A", ["1"; "2"])] "query"
     <> Panic (IndexOutOfRange 0 0)
  /\ bindField (fun t v => bindData t v [("A", [])] "query") [("A", [])] "query"
       A_field (VInt 0)
     = Panic (IndexOutOfRange 0 0).
Proof.
  assert (H : nonempty_values [("A", ["1"; "2"])]).
  { intros k v Hin. simpl in Hin. destruct Hin as [Hin | []]. inversion Hin. discriminate. }
  split; [exact H |]. split.
  - apply (proj1 index_accesses_in_bounds). exact H.
  - apply (proj2 index_accesses_in_bounds); reflexivity.
Defined.


Lemma field_resolution_witness :
  CanSet B_field = true
  /\ nested B_field "form" = false
  /\ bindField (fun t v => bindData t v [("a", ["1"]); ("b", ["x"; "y"])] "form")
       [("a", ["1"]); ("b", ["x"; "y"])] "form" B_field (VString "")
     = assignField B_field (VString "") ["x"; "y"].
Proof.
  split; [reflexivity |]. split; [reflexivity |].
  apply (proj1 (proj2 (proj2 (field_resolution _ [("a", ["1"]); ("b", ["x"; "y"])] "form"
                                B_field (VString "") eq_refl eq_refl)))
           [("a", ["1"])] "b" ["x"; "y"] []).
  - simpl. intros H. repeat (destruct H as [H | H]; [discriminate H |]). exact H.
  - reflexivity.
  - reflexivity.
  - simpl. intros k' [<- | []]. discriminate.
Defined.

Lemma unresolved_field_is_left_witness :
  recursed B_field "form" = false
  /\ resolve [("A", ["1"])] (inputFieldName B_field "form") = None
  /\ bindData (TStruct [A_field; B_field] None) (VStruct [VInt 0; VString "kept"])
       [("A", ["1"])] "form"
     = Ret (VStruct [VInt 1; VString "kept"], None).
Proof.
  split; [reflexivity |]. split; [reflexivity |].
  rewrite (proj2 (proj2 (unresolved_field_is_left [("A", ["1"])] "form"))
             A_field B_field None (VInt 0) (VString "kept") eq_refl eq_refl).
  reflexivity.
Defined.

(** C4, as the claim states it, fails: a field named [name] is not
    exported, so the walker passes over it and the value of the key [Name]
    is not used; and the key [In] is not used for a field [In] of struct
    type without a tag, which the walker goes into instead. *)
Lemma unexported_or_nested_field_not_looked_up :
  bindData lower_name_struct (VStruct [VString ""]) [("Name", ["Jon"])] "query"
  = Ret (VStruct [VString ""], None)
  /\ bindData outer_struct (VStruct [VStruct [VInt 0]]) [("In", ["5"])] "query"
     = Ret (VStruct [VStruct [VInt 0]], None).
Proof. split; reflexivity. Qed.


(** C8, as the claim states it, fails: no key of the map matches the tag
    or name of the field [In], exactly or in lower case, and yet the field
    does not keep its value, since the walker goes into it and the key [A]
    sets its field [A]. *)
Lemma unresolved_nested_field_changes :
  resolve [("A", ["1"])] (inputFieldName In_field "query") = None
  /\ bindData outer_struct (VStruct [VStruct [VInt 0]]) [("A", ["1"])] "query"
     = Ret (VStruct [VStruct [VInt 1]], None)
  /\ VStruct [VInt 1] <> VStruct [VInt 0].
Proof. repeat split; try reflexivity. discriminate. Qed.


(** * The further facts at work on the example runtime *)

#[local] Existing Instance example_echo.

Lemma A_In_value_shaped : shaped A_In_struct A_In_value.
Proof.
  apply shaped_struct. constructor; [| constructor; [| constructor]].
  - apply shaped_other. discriminate.
  - apply shaped_struct. constructor; [| constructor].
    apply shaped_other. discriminate.
Qed.

Lemma slice_field_takes_all_values_witness :
  Type_ Ids_field = TSlice (TBasic Int64 None) None
  /\ assignField Ids_field (VSlice [VInt 9]) ["3"; "1"; "2"]
     = Ret (VSlice [VInt 3; VInt 1; VInt 2], Continue).
Proof.
  split; [reflexivity |].
  apply (slice_field_takes_all_values Ids_field (VSlice [VInt 9]) (TBasic Int64 None)
           ["3"; "1"; "2"] eq_refl).
  - discriminate.
  - repeat constructor.
Defined.

Lemma slice_field_first_failure_witness :
  snd (setWithProperType (TBasic Int64 None) "x" (zero (TBasic Int64 None)))
  = Some (NumError "ParseInt" "x" ErrSyntax)
  /\ assignField Ids_field (VSlice [VInt 9]) ["1"; "x"; "3"]
     = Ret (VSlice [VInt 9], Return (Some (NumError "ParseInt" "x" ErrSyntax))).
Proof.
  split; [reflexivity |].
  apply (slice_field_first_failure Ids_field (VSlice [VInt 9]) (TBasic Int64 None)
           ["1"] "x" ["3"] _ eq_refl).
  - repeat constructor.
  - reflexivity.
Defined.

Lemma method_decides_conversion_witness :
  method hooked_int = Some failing_hook
  /\ setWithProperType hooked_int "5" (VInt 7) = setWithProperType hooked_int "5" (VInt 8).
Proof.
  split; [reflexivity |].
  apply (proj2 (method_decides_conversion hooked_int "5" failing_hook (VInt 7) (VInt 8)
                  eq_refl)).
Defined.

Lemma unsupported_type_is_rejected_witness :
  method (TStruct [A_field] None) = None
  /\ setWithProperType (TStruct [A_field] None) "1" (VStruct [VInt 0])
     = (VStruct [VInt 0], Some (errorString "unknown type"))
  /\ setWithProperType (TBasic Map None) "1" (VOpaque 4)
     = (VOpaque 4, Some (errorString "unknown type")).
Proof.
  split; [reflexivity |]. split.
  - apply (unsupported_type_is_rejected (TStruct [A_field] None)); [reflexivity | exact I].
  - apply (unsupported_type_is_rejected (TBasic Map None)); reflexivity.
Defined.

Lemma setTimeField_writes_on_success_witness :
  setTimeField "2024-03-15" At_format_field (@VTime example_runtime 9)
  = (@VTime example_runtime 9, Some (foreignError "parsing time"))
  /\ @VTime example_runtime 9 = @VTime example_runtime 9.
Proof.
  split; [reflexivity |].
  apply (setTimeField_writes_on_success "2024-03-15" At_format_field
           (@VTime example_runtime 9) (@VTime example_runtime 9)
           (Some (foreignError "parsing time"))).
  reflexivity.
Defined.

Lemma only_first_value_is_used_witness :
  is_Slice (Kind_of (Type_ B_field)) = false
  /\ assignField B_field (VString "") ["x"; "y"] = assignField B_field (VString "") ["x"].
Proof.
  split; [reflexivity |].
  apply (only_first_value_is_used B_field (VString "") "x" ["y"]). left. reflexivity.
Defined.

Lemma resolve_iff_lower_case_match_witness :
  resolve [("Name", ["Jon"])] "NAME" = Some ["Jon"]
  /\ exists k, In (k, ["Jon"]) [("Name", ["Jon"])] /\ ToLower k = ToLower "NAME".
Proof.
  split; [reflexivity |].
  apply (proj2 (resolve_iff_lower_case_match [("Name", ["Jon"])] "NAME")). reflexivity.
Defined.

Lemma empty_map_changes_nothing_witness :
  is_Struct (Kind_of A_In_struct) = true
  /\ bindData A_In_struct A_In_value [] "form" = Ret (A_In_value, None).
Proof.
  split; [reflexivity |].
  apply (empty_map_changes_nothing A_In_struct A_In_value "form");
    [exact A_In_value_shaped | reflexivity].
Defined.

Lemma bindData_does_not_panic_witness :
  nonempty_values [("a", ["1"; "2"])]
  /\ exists val' err,
       bindData A_In_struct A_In_value [("a", ["1"; "2"])] "form" = Ret (val', err)
       /\ length (Fields val') = length (Fields A_In_value).
Proof.
  assert (H : nonempty_values [("a", ["1"; "2"])]).
  { intros k v Hin. simpl in Hin. destruct Hin as [Hin | []]. inversion Hin. discriminate. }
  split; [exact H |].
  apply (bindData_does_not_panic A_In_struct A_In_value _ "form" A_In_value_shaped H).
Defined.

Lemma integer_conversion_exact_witness :
  signed_width Int8 = Some 8 /\ signed_decimal "300" = true
  /\ signed_value "300" = 300
  /\ setWithProperType (TBasic Int8 None) "300" (VInt 7)
     = (VInt 7, Some (NumError "ParseInt" "300" ErrRange))
  /\ setWithProperType (TBasic Int8 None) "-128" (VInt 7) = (VInt (-128), None)
  /\ setWithProperType (TBasic Uint16 None) "65536" (VUint 7)
     = (VUint 7, Some (NumError "ParseUint" "65536" ErrRange)).
Proof.
  split; [reflexivity |]. split; [reflexivity |]. split; [reflexivity |]. split.
  - apply (proj1 (integer_conversion_exact Int8 8 "300" (VInt 7)) eq_refl eq_refl).
  - split.
    + apply (proj1 (integer_conversion_exact Int8 8 "-128" (VInt 7)) eq_refl eq_refl).
    + apply (proj2 (integer_conversion_exact Uint16 16 "65536" (VUint 7)) eq_refl eq_refl).
Defined.

Lemma integer_conversion_reads_decimal_witness :
  setWithProperType (TBasic Uint16 None) "65535" (VUint 0) = (VUint 65535, None)
  /\ unsigned_width Uint16 = Some 16
  /\ ("65535" = "" \/ decimal "65535" = true).
Proof.
  split; [reflexivity |]. split; [reflexivity |].
  apply (proj2 (integer_conversion_reads_decimal Uint16 16 "65535" (VUint 0) (VUint 65535)
                  eq_refl)).
  reflexivity.
Defined.

Lemma unexported_field_is_kept_witness :
  bindData A_secret_struct A_secret_value [("a", ["7"]); ("secret", ["told"])] "query"
  = Ret (VStruct [VInt 7; VStruct [VInt 7; VString "kept"]], None)
  /\ unexported_at "query" A_secret_struct [1%nat; 1%nat]
  /\ at_path (VStruct [VInt 7; VStruct [VInt 7; VString "kept"]]) [1%nat; 1%nat]
     = at_path A_secret_value [1%nat; 1%nat].
Proof.
  assert (Hp : unexported_at "query" A_secret_struct [1%nat; 1%nat]).
  { apply (unexported_below "query" _ None 1
             (mkField "In" [] (TStruct [A_field; secret_field] None)) [1%nat]);
      [reflexivity | reflexivity |].
    apply (unexported_here "query" _ None 1 secret_field); reflexivity. }
  split; [reflexivity |]. split; [exact Hp |].
  apply (unexported_field_is_kept A_secret_struct A_secret_value _
           [("a", ["7"]); ("secret", ["told"])] "query" None [1%nat; 1%nat]);
    [reflexivity | exact Hp].
Defined.

Lemma Bind_empty_body_witness :
  ContentLength (Request_ post_without_body) = 0
  /\ Bind A_In_struct A_In_value post_without_body
     = Ret (A_In_value, Some (NewHTTPError 400 "Request body can't be empty")).
Proof.
  split; [reflexivity |].
  apply (Bind_empty_body A_In_struct A_In_value post_without_body);
    (reflexivity || discriminate).
Defined.

Lemma Bind_errors_witness :
  Bind A_In_struct A_In_value (get_request [("a", ["x"])])
  = Ret (A_In_value,
         Some (SetInternal (NewHTTPError 400 "binder error")
                 (binder_error (NumError "ParseInt" "x" ErrSyntax))))
  /\ bindData A_In_struct A_In_value [("a", ["x"])] "query"
     = Ret (A_In_value, Some (NumError "ParseInt" "x" ErrSyntax))
  /\ exists e : error,
       SetInternal (NewHTTPError 400 "binder error")
         (binder_error (NumError "ParseInt" "x" ErrSyntax))
       = SetInternal (NewHTTPError 400 (Error (binder_error e))) (binder_error e)
       /\ ContentLength (Request_ (get_request [("a", ["x"])])) = 0
       /\ bindData A_In_struct A_In_value (QueryParams (get_request [("a", ["x"])])) "query"
          = Ret (A_In_value, Some e).
Proof.
  split; [reflexivity |]. split; [reflexivity |].
  assert (Hrun : Bind A_In_struct A_In_value (get_request [("a", ["x"])])
                 = Ret (A_In_value,
                        Some (SetInternal (NewHTTPError 400 "binder error")
                                (binder_error (NumError "ParseInt" "x" ErrSyntax)))))
    by reflexivity.
  destruct (Bind_errors A_In_struct A_In_value A_In_value (get_request [("a", ["x"])]) _ Hrun)
    as [[H _] | [[H _] | [H | [(e & params & _ & H & _) | [(cause & _ & H & _)
       | [(m & cause & _ & H & _) | (m & cause & _ & H & _)]]]]]].
  - discriminate H.
  - discriminate H.
  - exact H.
  - exfalso. apply H. reflexivity.
  - exfalso. apply H. reflexivity.
  - exfalso. apply H. reflexivity.
  - exfalso. apply H. reflexivity.
Defined.

Lemma Bind_query_witness :
  ContentLength (Request_ (get_request [("a", ["7"])])) = 0
  /\ bindData A_In_struct A_In_value [("a", ["7"])] "query"
     = Ret (VStruct [VInt 7; VStruct [VInt 7]], None)
  /\ Bind A_In_struct A_In_value (get_request [("a", ["7"])])
     = Ret (VStruct [VInt 7; VStruct [VInt 7]], None).
Proof.
  split; [reflexivity |]. split; [reflexivity |].
  apply (proj1 (Bind_query A_In_struct A_In_value (VStruct [VInt 7; VStruct [VInt 7]])
                  (get_request [("a", ["7"])]) eq_refl (or_introl eq_refl))).
  reflexivity.
Defined.

Lemma Bind_unsupported_media_type_witness :
  ContentLength (Request_ octet_stream_request) <> 0
  /\ Bind A_In_struct A_In_value octet_stream_request
     = Ret (A_In_value, Some ErrUnsupportedMediaType).
Proof.
  split; [discriminate |].
  apply (Bind_unsupported_media_type A_In_struct A_In_value octet_stream_request).
  - discriminate.
  - repeat constructor.
Defined.

Lemma Bind_no_parameters_witness :
  QueryParams (get_request []) = []
  /\ Bind A_In_struct A_In_value (get_request []) = Ret (A_In_value, None).
Proof.
  split; [reflexivity |].
  apply (Bind_no_parameters A_In_struct A_In_value (get_request []) eq_refl
           (or_introl eq_refl) eq_refl A_In_value_shaped eq_refl).
Defined.
